(** * Bounded recursive content search of the MCP backend (mcp-backend/server.js)

    A shallow embedding of the file-search routine of [EnhancedMCPServer]
    ([readFile], [searchFilesAdvanced], [searchInLocation], [searchRecursive],
    [getContentPreview]) and of the tool dispatcher [executeTool], together
    with the properties the specification states about them.

    Conventions.
    - A JavaScript string is a [string]; one [ascii] stands for one UTF-16
      code unit in the range U+0000..U+00FF, and [toLowerCase] and [trim]
      are those of ECMAScript on that range.
    - Paths are POSIX paths; [path.resolve], [path.join] and [path.extname]
      follow Node's [path.posix].
    - A call that may throw returns a [Try]; every [try]/[catch] of the source
      is a [match] on it (or [catch]).
    - The file system and the process are an explicit environment [Env]
      ([fs.readdir], [fs.readFile], [fs.stat], [process.cwd]); the search only
      reads it.
    - The [results] array that [searchRecursive] pushes to is threaded through
      as an accumulator.
    - [null]/[undefined] arguments are [None].

    Contents: the embedding; the vocabulary of the specification ([Found]
    says which file a record stands for); example file trees; then the
    properties, C1 to C10. *)

From Stdlib Require Import Bool Arith NArith ZArith List Ascii String Lia.
From Stdlib Require Import Permutation Sorted.
Import ListNotations.

Set Implicit Arguments.

Local Open Scope list_scope.
Local Open Scope string_scope.

(** ** JavaScript string methods used by the search code *)

Module JsString.

Definition code (c : ascii) : N := N_of_ascii c.

(** Upper-case letters of the first 256 code points: A..Z and the
    Latin-1 capitals U+00C0..U+00DE without the multiplication sign. *)
Definition isUpper (c : ascii) : bool :=
  let n := code c in
  ((65 <=? n) && (n <=? 90))%N
  || ((192 <=? n) && (n <=? 222) && negb (n =? 215))%N.

Definition lowerChar (c : ascii) : ascii :=
  if isUpper c then ascii_of_N (code c + 32) else c.

(** [String.prototype.toLowerCase] *)
Fixpoint toLowerCase (s : string) : string :=
  match s with
  | EmptyString => EmptyString
  | String c s' => String (lowerChar c) (toLowerCase s')
  end.

(** [String.prototype.startsWith] *)
Fixpoint startsWith (s t : string) : bool :=
  match t, s with
  | EmptyString, _ => true
  | String _ _, EmptyString => false
  | String b t', String a s' => Ascii.eqb a b && startsWith s' t'
  end.

(** [String.prototype.includes]: the search string occurs at some
    position of [s]. *)
Fixpoint includes (s t : string) : bool :=
  startsWith s t ||
  match s with
  | EmptyString => false
  | String _ s' => includes s' t
  end.

(** [s.split(sep)] for a separator of one character. *)
Fixpoint split (sep : ascii) (s : string) : list string :=
  match s with
  | EmptyString => [EmptyString]
  | String c s' =>
      if Ascii.eqb c sep then EmptyString :: split sep s'
      else match split sep s' with
           | [] => [String c EmptyString]
           | piece :: rest => String c piece :: rest
           end
  end.

(** White space and line terminators below U+0100: TAB, LF, VT, FF, CR,
    SPACE and NO-BREAK SPACE. *)
Definition isWhiteSpace (c : ascii) : bool :=
  let n := code c in
  ((9 <=? n) && (n <=? 13) || (n =? 32) || (n =? 160))%N.

Fixpoint trimStart (s : string) : string :=
  match s with
  | EmptyString => EmptyString
  | String c s' => if isWhiteSpace c then trimStart s' else s
  end.

Fixpoint trimEnd (s : string) : string :=
  match s with
  | EmptyString => EmptyString
  | String c s' =>
      match trimEnd s' with
      | EmptyString => if isWhiteSpace c then EmptyString else String c EmptyString
      | t => String c t
      end
  end.

(** [String.prototype.trim] *)
Definition trim (s : string) : string := trimEnd (trimStart s).

(** [Array.prototype.includes] on an array of strings (strict equality). *)
Definition arrayIncludes (xs : list string) (x : string) : bool :=
  existsb (String.eqb x) xs.

(** [Array.prototype.join] *)
Fixpoint joinWith (sep : string) (xs : list string) : string :=
  match xs with
  | [] => EmptyString
  | [x] => x
  | x :: rest => x ++ sep ++ joinWith sep rest
  end.

Definition LF : ascii := ascii_of_N 10.
Definition slash : ascii := "/"%char.
Definition dot : ascii := "."%char.

End JsString.

Import JsString.

(** ** Node's [path] module (POSIX flavour), as used by the search code *)

Module Path.

(** [normalizeString]: resolves [.] and [..] segments and drops empty ones.
    [stack] holds the segments kept so far, innermost first. *)
Fixpoint normalizeSegments (allowAboveRoot : bool) (segs stack : list string)
  : list string :=
  match segs with
  | [] => rev stack
  | seg :: rest =>
      if (seg =? "") || (seg =? ".") then
        normalizeSegments allowAboveRoot rest stack
      else if seg =? ".." then
        match stack with
        | top :: below =>
            if top =? ".." then
              normalizeSegments allowAboveRoot rest
                (if allowAboveRoot then ".." :: stack else stack)
            else normalizeSegments allowAboveRoot rest below
        | [] =>
            normalizeSegments allowAboveRoot rest
              (if allowAboveRoot then [".."] else [])
        end
      else normalizeSegments allowAboveRoot rest (seg :: stack)
  end.

Definition normalizeString (p : string) (allowAboveRoot : bool) : string :=
  joinWith "/" (normalizeSegments allowAboveRoot (split slash p) []).

Definition isAbsolute (p : string) : bool := startsWith p "/".

Fixpoint endsWithSlash (p : string) : bool :=
  match p with
  | EmptyString => false
  | String c EmptyString => Ascii.eqb c slash
  | String _ p' => endsWithSlash p'
  end.

(** [path.normalize] *)
Definition normalize (p : string) : string :=
  if p =? "" then "."
  else
    let abs := isAbsolute p in
    let trailing := endsWithSlash p in
    let q := normalizeString p (negb abs) in
    if q =? "" then
      (if abs then "/" else if trailing then "./" else ".")
    else
      let q' := if trailing then q ++ "/" else q in
      if abs then "/" ++ q' else q'.

(** [path.join(a, b)] *)
Definition join (a b : string) : string :=
  if a =? "" then (if b =? "" then "." else normalize b)
  else if b =? "" then normalize a
  else normalize (a ++ "/" ++ b).

(** The suffix of [s] that starts at its last dot, if it has one. *)
Fixpoint lastDotSuffix (s : string) : option string :=
  match s with
  | EmptyString => None
  | String c s' =>
      match lastDotSuffix s' with
      | Some e => Some e
      | None => if Ascii.eqb c dot then Some s else None
      end
  end.

(** The last non-empty segment of a path. *)
Definition lastSegment (p : string) : string :=
  last (filter (fun seg => negb (seg =? "")) (split slash p)) "".

(** [path.extname]: from the last dot of the last segment to its end; empty
    when there is no dot, when the only dot opens the segment, and for [..]. *)
Definition extname (p : string) : string :=
  let base := lastSegment p in
  match base with
  | EmptyString => ""
  | String _ rest =>
      match lastDotSuffix rest with
      | Some e => if base =? ".." then "" else e
      | None => ""
      end
  end.

End Path.

(** ** Exceptions, the file system and the process *)

(** The outcome of a call that may throw; [Throw] carries [error.message]. *)
Inductive Try (A : Type) : Type :=
| Ok (a : A)
| Throw (message : string).

Arguments Ok {A} a.
Arguments Throw {A} message.

(** What [Dirent.isDirectory()] and [Dirent.isFile()] tell apart; a symbolic
    link, socket or device answers [false] to both. *)
Inductive EntryKind : Type := DirK | FileK | OtherK.

Record Dirent : Type := mkDirent { name : string; kind : EntryKind }.

Definition isDirectory (item : Dirent) : bool :=
  match kind item with DirK => true | _ => false end.

Definition isFile (item : Dirent) : bool :=
  match kind item with FileK => true | _ => false end.

Record Stats : Type := mkStats { st_size : N; st_mtime : Z }.

(** [process.cwd()], [fs.readdir(dir, {withFileTypes: true})],
    [fs.readFile(path, encoding)] and [fs.stat(path)]. *)
Record Env : Type := mkEnv {
  cwd : Try string;
  fs_readdir : string -> Try (list Dirent);
  fs_readFile : string -> string -> Try string;
  fs_stat : string -> Try Stats
}.

(** [path.resolve(p)] with one argument; needs [process.cwd()] only when [p]
    is not absolute, and throws when that call throws. *)
Definition resolve (env : Env) (p : string) : Try string :=
  let finish (full : string) : string :=
    if Path.isAbsolute full then "/" ++ Path.normalizeString full false
    else
      let q := Path.normalizeString full true in
      if q =? "" then "." else q in
  if Path.isAbsolute p then Ok (finish (p ++ "/"))
  else
    match cwd env with
    | Throw m => Throw m
    | Ok c =>
        let tail := if p =? "" then "" else p ++ "/" in
        Ok (finish (if c =? "" then tail else c ++ "/" ++ tail))
    end.

(** Sequencing of calls that may throw, and [try { t } catch (e) { h e }]. *)
Definition bind {A B : Type} (t : Try A) (k : A -> Try B) : Try B :=
  match t with
  | Ok a => k a
  | Throw m => Throw m
  end.

Definition catch {A : Type} (t : Try A) (h : string -> Try A) : Try A :=
  match t with
  | Ok a => Ok a
  | Throw m => h m
  end.

Notation "x <- t ;; k" := (bind t (fun x => k))
  (at level 61, t at next level, right associativity).

(** ** The server object and its records *)

Record Metadata : Type := mkMetadata {
  m_size : N;
  m_modified : Z;
  m_path : string;
  m_encoding : string
}.

(** What [readFile] returns: [{success: true, content, metadata}] or
    [{success: false, error}]. *)
Inductive FileResult : Type :=
| ReadOk (content : string) (metadata : Metadata)
| ReadErr (error : string).

Record PreviewLine : Type := mkPreviewLine { line : string; number : nat }.

Record MatchRecord : Type := mkMatch {
  file : string;
  type : string;
  size : N;
  modified : Z;
  preview : list PreviewLine
}.

Record SearchSuccess : Type := mkSearchSuccess {
  query : string;
  searchLocations : list string;
  totalResults : nat;
  results : list MatchRecord
}.

(** What [searchFilesAdvanced] returns: [{success: true, ...}] or
    [{success: false, error}]. *)
Inductive SearchResult : Type :=
| Success (r : SearchSuccess)
| Failure (error : string).

(** The two fields of [this] that the search reads. *)
Record Server : Type := mkServer {
  this_searchLocations : list string;
  this_emailFileTypes : list string
}.

Definition emailFileTypes : list string :=
  [".eml"; ".msg"; ".mbox"; ".txt"; ".md"; ".docx"; ".pdf"; ".csv"; ".json"; ".xml"].

(** [getSearchLocations], from [process.platform], the home directory and
    [process.env.USERNAME]. *)
Definition getSearchLocations (platform homeDir username : string) : list string :=
  let locations :=
    ["."; homeDir ++ "/Documents"; homeDir ++ "/Downloads"; homeDir ++ "/Desktop"] in
  if platform =? "win32" then
    app locations
      [homeDir ++ "\Documents";
       homeDir ++ "\AppData\Local\Microsoft\Outlook";
       "C:\Users\" ++ username ++ "\Documents"]
  else if platform =? "darwin" then
    app locations [homeDir ++ "/Library/Mail"; homeDir ++ "/Documents"]
  else locations.

Definition newServer (platform homeDir username : string) : Server :=
  {| this_searchLocations := getSearchLocations platform homeDir username;
     this_emailFileTypes := emailFileTypes |}.

(** [readFile]: utf-8 first, latin1 when that throws, then [fs.stat]; any
    exception that is left becomes [{success: false}]. *)
Definition readFile (env : Env) (filePath : string) : FileResult :=
  let attempt : Try (string * Metadata) :=
    resolvedPath <- resolve env filePath ;;
    content <- catch (fs_readFile env resolvedPath "utf-8")
                     (fun _ => fs_readFile env resolvedPath "latin1") ;;
    stats <- fs_stat env resolvedPath ;;
    Ok (content,
        {| m_size := st_size stats;
           m_modified := st_mtime stats;
           m_path := resolvedPath;
           m_encoding := "auto-detected" |}) in
  match attempt with
  | Ok (content, metadata) => ReadOk content metadata
  | Throw m => ReadErr m
  end.

(** [xs.map((x, index) => f x index)] *)
Fixpoint mapi_from {A B : Type} (f : A -> nat -> B) (index : nat) (xs : list A)
  : list B :=
  match xs with
  | [] => []
  | x :: rest => f x index :: mapi_from f (S index) rest
  end.

Definition mapi {A B : Type} (f : A -> nat -> B) (xs : list A) : list B :=
  mapi_from f 0 xs.

Definition getContentPreview (content query : string) : list PreviewLine :=
  let lines := split LF content in
  let matchingLines :=
    firstn 3
      (filter (fun p => includes (toLowerCase (line p)) (toLowerCase query))
         (mapi (fun l index => {| line := trim l; number := index + 1 |}) lines)) in
  matchingLines.

Definition excludeNames : list string :=
  ["node_modules"; "vendor"; "venv"; "__pycache__"].

(** [searchRecursive]; returns the [results] array after the call.  [fuel]
    bounds the nesting of calls and is not part of the source: the depth test
    on the first line stops the recursion before it can run out (see
    [searchRecursive]). *)
Fixpoint searchRecursive_fuel (fuel : nat) (env : Env) (dir query : string)
  (fileTypes : list string) (results : list MatchRecord)
  (currentDepth maxDepth : nat) : list MatchRecord :=
  if (maxDepth <? currentDepth)%nat then results
  else
    match fuel with
    | O => results
    | S fuel' =>
        match fs_readdir env dir with
        | Throw _ => results
        | Ok items =>
            fold_left
              (fun results item =>
                 let itemPath := Path.join dir (name item) in
                 if startsWith (name item) "."
                    || arrayIncludes excludeNames (name item)
                 then results
                 else if isDirectory item then
                   searchRecursive_fuel fuel' env itemPath query fileTypes
                     results (currentDepth + 1) maxDepth
                 else if isFile item then
                   let ext := toLowerCase (Path.extname (name item)) in
                   if arrayIncludes fileTypes ext then
                     match readFile env itemPath with
                     | ReadOk content metadata =>
                         if includes (toLowerCase content) (toLowerCase query)
                         then
                           (results ++
                              [{| file := itemPath;
                                  type := ext;
                                  size := m_size metadata;
                                  modified := m_modified metadata;
                                  preview := getContentPreview content query |}]
                           )%list
                         else results
                     | ReadErr _ => results
                     end
                   else results
                 else results)
              items results
        end
    end.

Definition searchRecursive (env : Env) (dir query : string)
  (fileTypes : list string) (results : list MatchRecord)
  (currentDepth maxDepth : nat) : list MatchRecord :=
  searchRecursive_fuel (S maxDepth - currentDepth) env dir query fileTypes
    results currentDepth maxDepth.

Definition searchInLocation (env : Env) (location query : string)
  (fileTypes : list string) : list MatchRecord :=
  match resolve env location with
  | Throw _ => []
  | Ok resolvedLocation =>
      searchRecursive env resolvedLocation query fileTypes [] 0 3
  end.

(** [a || b] on a value that is [null]/[undefined] or an array. *)
Definition orDefault {A : Type} (a : option A) (b : A) : A :=
  match a with
  | Some x => x
  | None => b
  end.

(** [searchFilesAdvanced].  With the arguments typed as here nothing in the
    outer [try] throws, so [Failure] is never built. *)
Definition searchFilesAdvanced (this : Server) (env : Env) (query : string)
  (customLocations customFileTypes : option (list string)) : SearchResult :=
  let searchLocations := orDefault customLocations (this_searchLocations this) in
  let fileTypes := orDefault customFileTypes (this_emailFileTypes this) in
  let results :=
    fold_left
      (fun results location =>
         (results ++ searchInLocation env location query fileTypes)%list)
      searchLocations [] in
  Success
    {| query := query;
       searchLocations := searchLocations;
       totalResults := List.length results;
       results := firstn 50 results |}.

(** ** The tool dispatcher *)

Module Dispatch.

(** The [args] object of a tool call; a missing property is [None]. *)
Record Args : Type := mkArgs {
  path : option string;
  query : option string;
  locations : option (list string);
  fileTypes : option (list string);
  contactName : option string;
  recipient : option string;
  context : option string;
  prompt : option string
}.

(** The method of the server that a [case] body calls, with the actual
    arguments, or the exception of the [default] body. *)
Inductive Invocation : Type :=
| call_readFile (path : option string)
| call_listDirectory (path : option string)
| call_searchFilesAdvanced (query : option string)
    (locations fileTypes : option (list string))
| call_getSystemInfo
| call_analyzeEmailPatternsAdvanced (contactName : option string)
| call_searchOutlookEmails (contactName : option string)
| call_generateAIEmail (recipient context prompt : option string)
| call_searchMacOSOutlook (contactName : option string)
| throw_Error (message : string).

(** One [case label: body] of the [switch]; the body reads
    [process.platform] and [args]. *)
Record Clause : Type := mkClause {
  label : string;
  body : string -> Args -> Invocation
}.

(** The [case] clauses of [executeTool], in source order. *)
Definition clauses : list Clause :=
  [ mkClause "read_file" (fun _ args => call_readFile (path args));
    mkClause "list_directory" (fun _ args => call_listDirectory (path args));
    mkClause "search_files_advanced"
      (fun _ args =>
         call_searchFilesAdvanced (query args) (locations args) (fileTypes args));
    mkClause "get_system_info" (fun _ _ => call_getSystemInfo);
    mkClause "analyze_email_patterns_advanced"
      (fun _ args => call_analyzeEmailPatternsAdvanced (contactName args));
    mkClause "search_outlook_emails"
      (fun _ args => call_searchOutlookEmails (contactName args));
    mkClause "generate_ai_email"
      (fun _ args =>
         call_generateAIEmail (recipient args) (context args) (prompt args));
    mkClause "search_outlook_emails"
      (fun platform args =>
         if platform =? "darwin"
         then call_searchMacOSOutlook (contactName args)
         else call_searchOutlookEmails (contactName args)) ].

(** [switch (v) { case ... }]: the position of the first clause whose label
    is strictly equal to [v], counted from [index]. *)
Fixpoint selectFrom (index : nat) (cs : list Clause) (v : string) : option nat :=
  match cs with
  | [] => None
  | c :: rest => if label c =? v then Some index else selectFrom (S index) rest v
  end.

Definition selectClause (toolName : string) : option nat :=
  selectFrom 0 clauses toolName.

Definition defaultClause : Clause :=
  mkClause "" (fun _ _ => throw_Error "").

(** [executeTool]: every body returns, so no clause falls through. *)
Definition executeTool (platform toolName : string) (args : Args) : Invocation :=
  match selectClause toolName with
  | Some index => body (nth index clauses defaultClause) platform args
  | None => throw_Error ("Unknown tool: " ++ toolName)
  end.

End Dispatch.

(** ** Vocabulary of the specification *)

(** [t] occurs in [s] at some position. *)
Definition occursIn (t s : string) : Prop :=
  exists before after, s = before ++ t ++ after.

(** [s] and [t] differ at most in the case of their letters. *)
Definition equalIgnoreCase (s t : string) : Prop :=
  toLowerCase s = toLowerCase t.

(** [content] contains [query] when letter case is ignored: some part of
    [content] is [query] up to letter case. *)
Definition containsIgnoreCase (content query : string) : Prop :=
  exists before found after,
    content = before ++ found ++ after /\ equalIgnoreCase found query.

(** The test on [item.name] that makes the walker skip an entry. *)
Definition skipped (itemName : string) : bool :=
  startsWith itemName "." || arrayIncludes excludeNames itemName.

(** The test of the walker on a file's content. *)
Definition isMatch (content query : string) : bool :=
  includes (toLowerCase content) (toLowerCase query).

(** The path reached from [dir] by going down through the names [ds]. *)
Definition descend (dir : string) (ds : list string) : string :=
  fold_left Path.join ds dir.

(** [ds] is a chain of directory entries that starts in [dir]. *)
Fixpoint dirChain (env : Env) (dir : string) (ds : list string) : Prop :=
  match ds with
  | [] => True
  | d :: rest =>
      (exists items, fs_readdir env dir = Ok items /\ In (mkDirent d DirK) items)
      /\ dirChain env (Path.join dir d) rest
  end.

(** [dir] lists a regular file called [itemName]. *)
Definition fileAt (env : Env) (dir itemName : string) : Prop :=
  exists items, fs_readdir env dir = Ok items /\ In (mkDirent itemName FileK) items.

(** The record the walker pushes for a file. *)
Definition matchOf (itemPath itemName content : string) (metadata : Metadata)
  (query : string) : MatchRecord :=
  {| file := itemPath;
     type := toLowerCase (Path.extname itemName);
     size := m_size metadata;
     modified := m_modified metadata;
     preview := getContentPreview content query |}.

(** [r] is the record of the file [itemName] that lies below [root] through
    the directories [ds], none of them skipped, with an allowed extension,
    readable, and whose content matches [query]. *)
Definition Found (env : Env) (query : string) (fileTypes : list string)
  (root : string) (ds : list string) (itemName : string) (r : MatchRecord) : Prop :=
  dirChain env root ds
  /\ Forall (fun d => skipped d = false) ds
  /\ fileAt env (descend root ds) itemName
  /\ skipped itemName = false
  /\ arrayIncludes fileTypes (toLowerCase (Path.extname itemName)) = true
  /\ exists content metadata,
       readFile env (Path.join (descend root ds) itemName) = ReadOk content metadata
       /\ isMatch content query = true
       /\ r = matchOf (Path.join (descend root ds) itemName) itemName content
                metadata query.

(** The body of the [for] loop of [searchRecursive] for one [item], with the
    recursive call as [recurse]. *)
Definition visitItem (recurse : string -> list MatchRecord -> list MatchRecord)
  (env : Env) (dir query : string) (fileTypes : list string)
  (results : list MatchRecord) (item : Dirent) : list MatchRecord :=
  let itemPath := Path.join dir (name item) in
  if skipped (name item) then results
  else if isDirectory item then recurse itemPath results
  else if isFile item then
    if arrayIncludes fileTypes (toLowerCase (Path.extname (name item))) then
      match readFile env itemPath with
      | ReadOk content metadata =>
          if isMatch content query
          then app results [matchOf itemPath (name item) content metadata query]
          else results
      | ReadErr _ => results
      end
    else results
  else results.

(** What one iteration of the loop adds to [results]. *)
Definition visitAdds (env : Env) (query : string) (fileTypes : list string)
  (dir : string) (budget : nat) (item : Dirent) (r : MatchRecord) : Prop :=
  skipped (name item) = false
  /\ ((kind item = DirK
       /\ exists ds itemName,
            List.length ds < budget
            /\ Found env query fileTypes (Path.join dir (name item)) ds itemName r)
      \/ (kind item = FileK
          /\ arrayIncludes fileTypes (toLowerCase (Path.extname (name item))) = true
          /\ exists content metadata,
               readFile env (Path.join dir (name item)) = ReadOk content metadata
               /\ isMatch content query = true
               /\ r = matchOf (Path.join dir (name item)) (name item) content
                        metadata query)).

(** The [results] array of [searchFilesAdvanced] before it is sliced. *)
Definition allMatches (env : Env) (query : string) (searchLocations fileTypes : list string)
  : list MatchRecord :=
  flat_map (fun location => searchInLocation env location query fileTypes)
    searchLocations.

(** The lines of [content], trimmed and numbered from 1. *)
Definition numberedLines (content : string) : list PreviewLine :=
  mapi (fun l index => {| line := trim l; number := index + 1 |}) (split LF content).

(** Two environments answer alike wherever the search looks. *)
Definition sameAnswers (env1 env2 : Env) : Prop :=
  cwd env1 = cwd env2
  /\ (forall p, fs_readdir env1 p = fs_readdir env2 p)
  /\ (forall p, fs_readFile env1 p "utf-8" = fs_readFile env2 p "utf-8")
  /\ (forall p, fs_readFile env1 p "latin1" = fs_readFile env2 p "latin1")
  /\ (forall p, fs_stat env1 p = fs_stat env2 p).

(** ** File trees for examples *)

#[warnings="-register-all"] Inductive Tree : Type :=
| TFile (n content : string)
| TBroken (n : string)
| TDir (n : string) (entries : list Tree).

Definition treeName (t : Tree) : string :=
  match t with
  | TFile n _ => n
  | TBroken n => n
  | TDir n _ => n
  end.

(** The node at the end of the segments [segs], from [t]. *)
Fixpoint lookup (t : Tree) (segs : list string) {struct segs} : option Tree :=
  match segs with
  | [] => Some t
  | seg :: rest =>
      match t with
      | TDir _ entries =>
          (fix go (es : list Tree) : option Tree :=
             match es with
             | [] => None
             | child :: es' =>
                 if treeName child =? seg then lookup child rest else go es'
             end) entries
      | _ => None
      end
  end.

Definition segments (p : string) : list string :=
  filter (fun seg => negb (seg =? "")) (split slash p).

Definition direntOf (t : Tree) : Dirent :=
  mkDirent (treeName t)
    match t with
    | TDir _ _ => DirK
    | _ => FileK
    end.

(** A process whose working directory is [workdir] over the tree [t]; a
    [TBroken] file is listed but every read of it throws. *)
Definition treeEnv (workdir : string) (t : Tree) : Env :=
  {| cwd := Ok workdir;
     fs_readdir := fun p =>
       match lookup t (segments p) with
       | Some (TDir _ entries) => Ok (map direntOf entries)
       | Some _ => Throw "ENOTDIR: not a directory"
       | None => Throw "ENOENT: no such file or directory"
       end;
     fs_readFile := fun p _ =>
       match lookup t (segments p) with
       | Some (TFile _ content) => Ok content
       | Some (TBroken _) => Throw "EIO: i/o error"
       | Some (TDir _ _) => Throw "EISDIR: illegal operation on a directory"
       | None => Throw "ENOENT: no such file or directory"
       end;
     fs_stat := fun p =>
       match lookup t (segments p) with
       | Some (TFile _ content) => Ok (mkStats (N.of_nat (String.length content)) 0)
       | Some _ => Ok (mkStats 0 0)
       | None => Throw "ENOENT: no such file or directory"
       end |}.

Definition server0 : Server := newServer "linux" "/home/user" "user".

(** The scenario of the specification: [/data/a.txt] and [/data/sub/b.md]. *)
Definition scenarioTree : Tree :=
  TDir ""
    [TDir "data"
       [TFile "a.txt" "hello world";
        TDir "sub" [TFile "b.md" "nothing relevant"]]].

(** A location whose walk cannot start: [path.resolve] throws, or the
    resolved directory cannot be listed (it does not exist, is not a
    directory, or may not be read). *)
Definition rootFails (env : Env) (location : string) : Prop :=
  match resolve env location with
  | Throw _ => True
  | Ok root => exists message, fs_readdir env root = Throw message
  end.

(** [/data/a/b/c/g.txt], three directories below [/data], and
    [/data/a/b/c/d/f.txt], four directories below it. *)
Definition deepTree : Tree :=
  TDir ""
    [TDir "data"
       [TDir "a"
          [TDir "b"
             [TDir "c" [TFile "g.txt" "hello"; TDir "d" [TFile "f.txt" "hello"]]]]]].

(** [/data/.git/notes.txt] and [/data/node_modules/pkg/notes.txt] next to
    [/data/readme.txt] and the hidden file [/data/.hidden.txt]. *)
Definition hiddenTree : Tree :=
  TDir ""
    [TDir "data"
       [TDir ".git" [TFile "notes.txt" "hello"];
        TDir "node_modules" [TDir "pkg" [TFile "notes.txt" "hello"]];
        TFile ".hidden.txt" "hello";
        TFile "readme.txt" "hello there"]].

(** [/data] with a file that cannot be read next to one that can. *)
Definition brokenTree : Tree :=
  TDir ""
    [TDir "data" [TBroken "bad.txt"; TFile "good.txt" "hello world"]].

(** The answer the specification expects in its scenario. *)
Definition scenarioMatch : MatchRecord :=
  {| file := "/data/a.txt";
     type := ".txt";
     size := 11;
     modified := 0;
     preview := [{| line := "hello world"; number := 1 |}] |}.

Definition scenarioAnswer (q : string) : SearchSuccess :=
  {| query := q;
     searchLocations := ["/data"];
     totalResults := 1;
     results := [scenarioMatch] |}.

(** Two environments show the same file tree, but may enumerate the entries
    of a directory in different orders. *)
Definition sameTree (env1 env2 : Env) : Prop :=
  cwd env1 = cwd env2
  /\ (forall p,
        match fs_readdir env1 p, fs_readdir env2 p with
        | Ok items1, Ok items2 => Permutation items1 items2
        | Throw _, Throw _ => True
        | _, _ => False
        end)
  /\ (forall p, fs_readFile env1 p "utf-8" = fs_readFile env2 p "utf-8")
  /\ (forall p, fs_readFile env1 p "latin1" = fs_readFile env2 p "latin1")
  /\ (forall p, fs_stat env1 p = fs_stat env2 p).

(** [s] holds no path separator. *)
Fixpoint slashFree (s : string) : bool :=
  match s with
  | EmptyString => true
  | String c s' => negb (Ascii.eqb c slash) && slashFree s'
  end.

(** A name as a directory listing gives it: not empty, without a separator,
    and neither [.] nor [..]. *)
Definition plainName (n : string) : bool :=
  slashFree n && negb (n =? "") && negb (n =? ".") && negb (n =? "..").

(** Every directory listing of [env] holds such names only. *)
Definition plainEntries (env : Env) : Prop :=
  forall dir items item,
    fs_readdir env dir = Ok items -> In item items -> plainName (name item) = true.

(** Every name in the tree [t] below its top is plain. *)
Fixpoint plainTree (t : Tree) : bool :=
  match t with
  | TDir _ entries =>
      forallb (fun child => plainName (treeName child) && plainTree child) entries
  | _ => true
  end.

(** [/data] with [n] matching files [x.txt], [xx.txt], [xxx.txt], ... *)
Fixpoint repeatChar (c : ascii) (n : nat) : string :=
  match n with
  | O => EmptyString
  | S n' => String c (repeatChar c n')
  end.

Definition manyFiles (n : nat) : Tree :=
  TDir ""
    [TDir "data"
       (map (fun i => TFile (repeatChar "x" (S i) ++ ".txt") "hello") (seq 0 n))].

(** * Further methods of the server and its routes *)

Definition dq : string := String (ascii_of_nat 34) EmptyString.
Definition nl : string := String LF EmptyString.

(** What lies outside the process: [execAsync] (its [stdout] and [stderr]),
    [JSON.parse], [os.homedir()] and the date of the day. *)
#[warnings="-register-all"] Inductive Json : Type :=
| JNull
| JBool (b : bool)
| JNumber (literal : string)
| JString (s : string)
| JArray (items : list Json)
| JObject (fields : list (string * Json)).

Record Externals : Type := mkExternals {
  execAsync : string -> Try (string * string);
  JSON_parse : string -> Try Json;
  homedir : string;
  today : string
}.

(** ** [listDirectory] *)

(** An element of [contents]: [{name, type, size, modified, path}], or
    [{name, type, error}] when [fs.stat] throws. *)
Inductive ListedItem : Type :=
| Listed (itemName itemType : string) (itemSize : N) (itemModified : Z)
    (itemPath : string)
| Unlisted (itemName itemType error : string).

Inductive ListResult : Type :=
| ListOk (resolvedPath : string) (contents : list ListedItem)
| ListErr (error : string).

Definition listedName (it : ListedItem) : string :=
  match it with
  | Listed n _ _ _ _ => n
  | Unlisted n _ _ => n
  end.

Definition listedType (it : ListedItem) : string :=
  match it with
  | Listed _ t _ _ _ => t
  | Unlisted _ t _ => t
  end.

(** The function mapped over the items. *)
Definition listItem (env : Env) (resolvedPath : string) (item : Dirent) : ListedItem :=
  let itemPath := Path.join resolvedPath (name item) in
  match fs_stat env itemPath with
  | Ok stats =>
      Listed (name item) (if isDirectory item then "directory" else "file")
        (st_size stats) (st_mtime stats) itemPath
  | Throw _ =>
      Unlisted (name item) (if isDirectory item then "directory" else "file")
        "Permission denied"
  end.

(** [listDirectory(dirPath = '.')]; [None] is a missing argument. *)
Definition listDirectory (env : Env) (dirPath : option string) : ListResult :=
  let dirPath := orDefault dirPath "." in
  let attempt : Try (string * list ListedItem) :=
    resolvedPath <- resolve env dirPath ;;
    items <- fs_readdir env resolvedPath ;;
    Ok (resolvedPath, map (listItem env resolvedPath) (firstn 100 items)) in
  match attempt with
  | Ok (resolvedPath, contents) => ListOk resolvedPath contents
  | Throw m => ListErr m
  end.

(** ** The Outlook methods *)

Record OutlookEmail : Type := mkOutlookEmail {
  subject : option string;
  sender : option string;
  received : option string
}.

(** The truth value of a string that may be [undefined]. *)
Definition truthy (s : option string) : bool :=
  match s with
  | Some s => negb (s =? "")
  | None => false
  end.

(** [parseAppleScriptOutput]; with [output] a string nothing in its [try]
    throws. *)
Definition parseAppleScriptOutput (output : string) : list OutlookEmail :=
  let lines := split LF (trim output) in
  filter (fun email => truthy (subject email))
    (map (fun l =>
            let parts := split ","%char l in
            {| subject := option_map trim (nth_error parts 0);
               sender := option_map trim (nth_error parts 1);
               received := option_map trim (nth_error parts 2) |})
       lines).

Inductive OutlookResult : Type :=
| OutlookFailure (error : string)
| OutlookScripted (emails : list OutlookEmail) (source contactName : string)
| OutlookExported (source contactName : string) (foundFiles : nat)
    (files : list MatchRecord)
| OutlookDesktop (emails : list Json) (source : string).

Definition exportLocations (home : string) : list string :=
  [ Path.join home "Documents/Microsoft User Data/Outlook";
    Path.join home "Documents/Outlook";
    Path.join home "Downloads";
    Path.join home "Desktop" ].

Definition exportFileTypes : list string := [".olm"; ".pst"; ".mbox"; ".eml"].

Definition noOutlookData : string :=
  "No Outlook data found. Try exporting emails or ensure Outlook is installed.".

(** [searchOutlookExportFiles]; [os.homedir()] is [homedir ext], and with it
    nothing in the [try] throws. *)
Definition searchOutlookExportFiles (this : Server) (env : Env) (ext : Externals)
  (contactName : string) : OutlookResult :=
  match searchFilesAdvanced this env contactName
          (Some (exportLocations (homedir ext))) (Some exportFileTypes) with
  | Success searchResult =>
      if (0 <? List.length (results searchResult))%nat then
        OutlookExported "Outlook Export Files" contactName
          (List.length (results searchResult))
          (firstn 5 (results searchResult))
      else OutlookFailure noOutlookData
  | Failure _ => OutlookFailure noOutlookData
  end.

Definition appleScript (contactName : string) : string :=
  String.concat ""
    [ nl;
      "      tell application "; dq; "Microsoft Outlook"; dq; nl;
      "        set searchResults to {}"; nl;
      "        try"; nl;
      "          set myMessages to (every message in inbox whose subject contains "; dq; contactName; dq; " or sender's name contains "; dq; contactName; dq; ")"; nl;
      "          repeat with aMessage in myMessages"; nl;
      "            set messageInfo to {subject of aMessage, sender's name of aMessage, time received of aMessage}"; nl;
      "            set end of searchResults to messageInfo"; nl;
      "          end repeat"; nl;
      "          return searchResults"; nl;
      "        on error errMsg"; nl;
      "          return "; dq; "Error: "; dq; " & errMsg"; nl;
      "        end try"; nl;
      "      end tell"; nl;
      "    " ].

(** [searchMacOSOutlook] *)
Definition searchMacOSOutlook (platform : string) (this : Server) (env : Env)
  (ext : Externals) (contactName : string) : OutlookResult :=
  if negb (platform =? "darwin") then
    OutlookFailure "macOS Outlook integration only available on macOS"
  else
    match execAsync ext ("osascript -e '" ++ appleScript contactName ++ "'") with
    | Ok (stdout, stderr) =>
        if negb (stderr =? "") then
          searchOutlookExportFiles this env ext contactName
        else
          OutlookScripted (parseAppleScriptOutput stdout)
            "Outlook macOS (AppleScript)" contactName
    | Throw _ => searchOutlookExportFiles this env ext contactName
    end.

Definition powershellScript (contactName : string) : string :=
  String.concat ""
    [ nl;
      "        try {"; nl;
      "          Add-Type -AssemblyName "; dq; "Microsoft.Office.Interop.Outlook"; dq; nl;
      "          $outlook = New-Object -ComObject Outlook.Application"; nl;
      "          $namespace = $outlook.GetNamespace("; dq; "MAPI"; dq; ")"; nl;
      "          $inbox = $namespace.GetDefaultFolder(6)"; nl;
      "          "; nl;
      "          $emails = $inbox.Items | Where-Object { "; nl;
      "            $_.Subject -like "; dq; "*"; contactName; "*"; dq; " -or "; nl;
      "            $_.SenderName -like "; dq; "*"; contactName; "*"; dq; " "; nl;
      "          } | Select-Object -First 10 Subject, SenderName, ReceivedTime, Body"; nl;
      "          "; nl;
      "          $emails | ConvertTo-Json -Depth 2"; nl;
      "        } catch {"; nl;
      "          Write-Output "; dq; "Error: $_"; dq; nl;
      "        }"; nl;
      "      " ].

(** [searchOutlookEmails] *)
Definition searchOutlookEmails (platform : string) (ext : Externals)
  (contactName : string) : OutlookResult :=
  if negb (platform =? "win32") then
    OutlookFailure "Outlook integration only available on Windows"
  else
    match execAsync ext
            ("powershell -Command " ++ dq ++ powershellScript contactName ++ dq) with
    | Throw m => OutlookFailure ("Outlook access failed: " ++ m)
    | Ok (stdout, stderr) =>
        if negb (stderr =? "") then
          OutlookFailure ("Outlook access failed: " ++ stderr)
        else
          match JSON_parse ext stdout with
          | Ok emails =>
              OutlookDesktop
                match emails with
                | JArray items => items
                | _ => [emails]
                end
                "Outlook Desktop"
          | Throw _ => OutlookFailure ("Could not parse Outlook data: " ++ stdout)
          end
    end.

(** ** Pattern analysis *)

Record EmailContent : Type := mkEmailContent {
  ec_file : string;
  ec_content : string;
  ec_modified : Z
}.

Record ManualAnalysis : Type := mkManualAnalysis {
  relationship : string;
  communicationStyle : string;
  commonTopics : list string;
  lastInteractionDate : string;
  preferences : list string;
  recentContext : string
}.

Definition topics : list string :=
  ["project"; "meeting"; "deadline"; "budget"; "review"; "update"; "call"].

(** [extractPatternsManually]; [contactName] is not used by the source. *)
Definition extractPatternsManually (ext : Externals)
  (emailContents : list EmailContent) (contactName : string) : ManualAnalysis :=
  let allContent :=
    joinWith " " (map (fun item => toLowerCase (ec_content item)) emailContents) in
  {| relationship :=
       if includes allContent "manager" || includes allContent "supervisor"
       then "Manager"
       else if includes allContent "team" || includes allContent "colleague"
       then "Colleague"
       else if includes allContent "client" || includes allContent "customer"
       then "Client"
       else "Contact";
     communicationStyle :=
       if includes allContent "dear" && includes allContent "sincerely"
       then "Formal"
       else if includes allContent "hey" || includes allContent "thanks!"
       then "Casual"
       else "Professional";
     commonTopics := filter (fun topic => includes allContent topic) topics;
     lastInteractionDate := today ext;
     preferences := [];
     recentContext := "Communication history found in local files" |}.

(** The loop of [analyzeEmailPatternsAdvanced] that reads the files again. *)
Definition collectEmailContents (env : Env) (found : list MatchRecord)
  : list EmailContent :=
  fold_left
    (fun emailContents result =>
       match readFile env (file result) with
       | ReadOk content _ =>
           app emailContents
             [{| ec_file := file result;
                 ec_content := content;
                 ec_modified := modified result |}]
       | ReadErr _ => emailContents
       end)
    (firstn 10 found) [].

Section Analysis.

(** [analyzeWithAI] (which asks the completion API and falls back to
    [extractPatternsManually]) and [generateMockEmailAnalysis] are taken as
    they are called: total functions of their arguments. *)
Variables AIAnalysis MockAnalysis : Type.
Variable analyzeWithAI : string -> list EmailContent -> AIAnalysis.
Variable generateMockEmailAnalysis : string -> MockAnalysis.

(** [{success: true, analysis: {contactName, foundFiles, analyzedFiles,
    searchLocations, aiGenerated: true, ...aiAnalysis}}]: the properties of
    [aiAnalysis] are spread last. *)
Inductive AnalysisResult : Type :=
| Mocked (mock : MockAnalysis)
| Analysed (contactName : string) (foundFiles analyzedFiles : nat)
    (searchedLocations : list string) (aiAnalysis : AIAnalysis)
| AnalysisFailed (error : string).

(** [analyzeEmailPatternsAdvanced] *)
Definition analyzeEmailPatternsAdvanced (this : Server) (env : Env)
  (contactName : string) : AnalysisResult :=
  match searchFilesAdvanced this env contactName None None with
  | Failure _ => Mocked (generateMockEmailAnalysis contactName)
  | Success searchResult =>
      if (List.length (results searchResult) =? 0)%nat then
        Mocked (generateMockEmailAnalysis contactName)
      else
        let emailContents := collectEmailContents env (results searchResult) in
        let aiAnalysis := analyzeWithAI contactName emailContents in
        Analysed contactName (List.length (results searchResult))
          (List.length emailContents) (searchLocations searchResult) aiAnalysis
  end.

End Analysis.

(** ** The intent of a message *)

Record Intent : Type := mkIntent { intentType : string; description : string }.

(** [extractEmailIntent] *)
Definition extractEmailIntent (message : string) : Intent :=
  let lowerMessage := toLowerCase message in
  if includes lowerMessage "reply" || includes lowerMessage "respond" then
    mkIntent "reply" "The sender wants to reply to a previous communication."
  else if includes lowerMessage "follow up" || includes lowerMessage "followup" then
    mkIntent "follow-up"
      "The sender wants to follow up on a previous discussion or action."
  else if includes lowerMessage "meeting" || includes lowerMessage "schedule" then
    mkIntent "meeting" "The sender wants to schedule or discuss a meeting."
  else if includes lowerMessage "thank" || includes lowerMessage "appreciation" then
    mkIntent "thank you" "The sender wants to express gratitude or appreciation."
  else if includes lowerMessage "introduction" || includes lowerMessage "introduce" then
    mkIntent "introduction"
      "The sender wants to make an introduction or introduce themselves."
  else if includes lowerMessage "request" || includes lowerMessage "ask" then
    mkIntent "request" "The sender wants to make a request or ask for something."
  else
    mkIntent "general" "This appears to be a general communication.".

(** ** The routes *)

(** The names of [this.tools]. *)
Definition toolNames : list string :=
  [ "read_file"; "list_directory"; "search_files_advanced"; "get_system_info";
    "analyze_email_patterns_advanced"; "search_outlook_emails";
    "generate_ai_email" ].

Section Routes.

(** The methods that the [case] bodies call, each with the result it
    resolves to; every one of them catches what it throws. *)
Variable R : Type.

Record Methods : Type := mkMethods {
  m_readFile : option string -> R;
  m_listDirectory : option string -> R;
  m_searchFilesAdvanced :
    option string -> option (list string) -> option (list string) -> R;
  m_getSystemInfo : R;
  m_analyzeEmailPatternsAdvanced : option string -> R;
  m_searchOutlookEmails : option string -> R;
  m_generateAIEmail : option string -> option string -> option string -> R;
  m_searchMacOSOutlook : option string -> R
}.

(** [return await this.method(...)], or the [throw] of the default case. *)
Definition perform (methods : Methods) (inv : Dispatch.Invocation) : Try R :=
  match inv with
  | Dispatch.call_readFile p => Ok (m_readFile methods p)
  | Dispatch.call_listDirectory p => Ok (m_listDirectory methods p)
  | Dispatch.call_searchFilesAdvanced q l f =>
      Ok (m_searchFilesAdvanced methods q l f)
  | Dispatch.call_getSystemInfo => Ok (m_getSystemInfo methods)
  | Dispatch.call_analyzeEmailPatternsAdvanced c =>
      Ok (m_analyzeEmailPatternsAdvanced methods c)
  | Dispatch.call_searchOutlookEmails c => Ok (m_searchOutlookEmails methods c)
  | Dispatch.call_generateAIEmail r c p => Ok (m_generateAIEmail methods r c p)
  | Dispatch.call_searchMacOSOutlook c => Ok (m_searchMacOSOutlook methods c)
  | Dispatch.throw_Error m => Throw m
  end.

(** The body of a response: [res.json(result)], [{error}] or
    [{success: false, error}]. *)
Inductive Body : Type :=
| Result (result : R)
| ErrorOnly (error : string)
| FailureWith (error : string).

Record Response : Type := mkResponse { status : nat; body : Body }.

Definition noArgs : Dispatch.Args :=
  Dispatch.mkArgs None None None None None None None None.

(** [POST /api/mcp/execute] with [{tool, args}] *)
Definition postExecute (methods : Methods) (platform : string)
  (tool : option string) (args : option Dispatch.Args) : Response :=
  if negb (truthy tool) then mkResponse 400 (ErrorOnly "Tool name is required")
  else
    match perform methods
            (Dispatch.executeTool platform (orDefault tool "") (orDefault args noArgs)) with
    | Ok result => mkResponse 200 (Result result)
    | Throw m => mkResponse 500 (FailureWith m)
    end.

(** [POST /api/outlook/search] with [{contactName}] *)
Definition postOutlookSearch (methods : Methods) (platform : string)
  (contactName : option string) : Response :=
  if negb (truthy contactName) then
    mkResponse 400 (ErrorOnly "Contact name is required")
  else
    match perform methods
            (Dispatch.executeTool platform "search_outlook_emails"
               (Dispatch.mkArgs None None None None contactName None None None)) with
    | Ok result => mkResponse 200 (Result result)
    | Throw m => mkResponse 500 (ErrorOnly m)
    end.

(** [POST /api/files/search] with [{query, locations, fileTypes}] *)
Definition postFilesSearch (methods : Methods) (platform : string)
  (query : option string) (locations fileTypes : option (list string)) : Response :=
  if negb (truthy query) then
    mkResponse 400 (ErrorOnly "Search query is required")
  else
    match perform methods
            (Dispatch.executeTool platform "search_files_advanced"
               (Dispatch.mkArgs None query locations fileTypes None None None None)) with
    | Ok result => mkResponse 200 (Result result)
    | Throw m => mkResponse 500 (ErrorOnly m)
    end.

End Routes.

(** ** Vocabulary of the further properties *)

(** [s] holds no character [c]. *)
Fixpoint lacks (c : ascii) (s : string) : bool :=
  match s with
  | EmptyString => true
  | String a s' => negb (Ascii.eqb a c) && lacks c s'
  end.

(** [s] is not empty and its first, respectively last, character is not
    white space. *)
Definition startsNonWhite (s : string) : bool :=
  match s with
  | EmptyString => false
  | String c _ => negb (isWhiteSpace c)
  end.

Fixpoint endsNonWhite (s : string) : bool :=
  match s with
  | EmptyString => false
  | String c EmptyString => negb (isWhiteSpace c)
  | String _ s' => endsNonWhite s'
  end.

(** One of the analysed files contains [keyword], letter case ignored. *)
Definition mentions (emailContents : list EmailContent) (keyword : string) : Prop :=
  exists item, In item emailContents /\ containsIgnoreCase (ec_content item) keyword.

(** The keywords that [extractEmailIntent] looks for. *)
Definition intentKeywords : list string :=
  [ "reply"; "respond"; "follow up"; "followup"; "meeting"; "schedule";
    "thank"; "appreciation"; "introduction"; "introduce"; "request"; "ask" ].

(** Methods that return nothing, to run the dispatcher alone. *)
Definition noMethods : Methods unit :=
  mkMethods (fun _ => tt) (fun _ => tt) (fun _ _ _ => tt) tt (fun _ => tt)
    (fun _ => tt) (fun _ _ _ => tt) (fun _ => tt).

(** The file system of [env] with every directory enumerated backwards. *)
Definition reversedEnv (env : Env) : Env :=
  {| cwd := cwd env;
     fs_readdir := fun p =>
       match fs_readdir env p with
       | Ok items => Ok (rev items)
       | Throw m => Throw m
       end;
     fs_readFile := fs_readFile env;
     fs_stat := fs_stat env |}.

(** * Properties *)

(** ** Strings *)

Lemma startsWith_spec (s t : string) :
  startsWith s t = true <-> exists after, s = t ++ after.
Proof.
  revert s; induction t as [|b t IH]; intros s; simpl.
  - split; [intros _; exists s; reflexivity | destruct s; reflexivity].
  - destruct s as [|a s]; simpl.
    + split; [discriminate | intros [after H]; discriminate].
    + rewrite andb_true_iff, Ascii.eqb_eq, IH. split.
      * intros [-> [after ->]]. exists after; reflexivity.
      * intros [after H]. injection H as -> ->. split; [reflexivity | eauto].
Qed.

Lemma includes_spec (s t : string) : includes s t = true <-> occursIn t s.
Proof.
  unfold occursIn. induction s as [|a s IH].
  - cbn [includes]. rewrite orb_false_r, startsWith_spec. split.
    + intros [after H]. exists "", after. exact H.
    + intros [before [after H]]. destruct before; simpl in H.
      * eauto.
      * discriminate.
  - cbn [includes]. rewrite orb_true_iff, IH, startsWith_spec. split.
    + intros [[after H] | [before [after H]]].
      * exists "", after. exact H.
      * exists (String a before), after. simpl. now rewrite H.
    + intros [before [after H]]. destruct before as [|b before]; simpl in H.
      * left. eauto.
      * right. injection H as _ H. eauto.
Qed.

Lemma includes_empty (s : string) : includes s "" = true.
Proof. destruct s; reflexivity. Qed.

Lemma includes_refl (s : string) : includes s s = true.
Proof.
  apply includes_spec. exists "", "". simpl.
  induction s as [|a s IH]; simpl; [reflexivity | now rewrite <- IH].
Qed.

Lemma toLowerCase_app (a b : string) :
  toLowerCase (a ++ b) = toLowerCase a ++ toLowerCase b.
Proof. induction a as [|c a IH]; simpl; [reflexivity | now rewrite IH]. Qed.

Lemma toLowerCase_app_inv (c x y : string) :
  toLowerCase c = x ++ y ->
  exists a b, c = a ++ b /\ toLowerCase a = x /\ toLowerCase b = y.
Proof.
  revert c; induction x as [|h x IH]; intros c H; simpl in H.
  - exists "", c. auto.
  - destruct c as [|k c]; [discriminate|]. simpl in H. injection H as Hh Ht.
    destruct (IH c Ht) as [a [b [-> [Ha Hb]]]].
    exists (String k a), b. simpl. now rewrite Ha, Hh.
Qed.

Lemma isMatch_spec (content query : string) :
  isMatch content query = true <-> containsIgnoreCase content query.
Proof.
  unfold isMatch, containsIgnoreCase, equalIgnoreCase.
  rewrite includes_spec. unfold occursIn. split.
  - intros [x [z H]].
    apply toLowerCase_app_inv in H as [before [rest [-> [_ H]]]].
    apply toLowerCase_app_inv in H as [found [after [-> [H _]]]].
    exists before, found, after. auto.
  - intros [before [found [after [-> H]]]].
    exists (toLowerCase before), (toLowerCase after).
    now rewrite !toLowerCase_app, H.
Qed.

(** ** Paths *)

Lemma append_eq_empty (a b : string) : a ++ b = "" -> a = "" /\ b = "".
Proof. destruct a; simpl; [auto | discriminate]. Qed.

Lemma split_slashFree (s : string) : slashFree s = true -> split slash s = [s].
Proof.
  induction s as [|c s IH]; simpl; [reflexivity|].
  intros H. apply andb_true_iff in H as [Hc Hs].
  apply negb_true_iff in Hc. rewrite Hc, (IH Hs). reflexivity.
Qed.

Lemma split_nonempty (sep : ascii) (s : string) : split sep s <> [].
Proof.
  destruct s as [|c s]; simpl; [discriminate|].
  destruct (Ascii.eqb c sep); [discriminate|].
  destruct (split sep s); discriminate.
Qed.

Lemma split_app_sep (a b : string) :
  split slash (a ++ String slash b) = app (split slash a) (split slash b).
Proof.
  induction a as [|c a IH]; simpl; [reflexivity|].
  destruct (Ascii.eqb c slash); [now rewrite IH|].
  rewrite IH. destruct (split slash a) eqn:E; [|reflexivity].
  now apply split_nonempty in E.
Qed.

Lemma split_pieces_slashFree (s : string) :
  Forall (fun x => slashFree x = true) (split slash s).
Proof.
  induction s as [|c s IH]; simpl; [repeat constructor|].
  destruct (Ascii.eqb c slash) eqn:E; [now constructor|].
  destruct (split slash s) as [|piece rest]; [repeat constructor; simpl; now rewrite E|].
  inversion IH; subst. constructor; [simpl; now rewrite E | assumption].
Qed.

Lemma split_joinWith (segs : list string) :
  segs <> [] ->
  Forall (fun x => slashFree x = true) segs ->
  split slash (joinWith "/" segs) = segs.
Proof.
  induction segs as [|x segs IH]; [congruence|]. intros _ H.
  inversion H as [|? ? Hx Hrest]; subst.
  destruct segs as [|y segs]; [now apply split_slashFree|].
  change (joinWith "/" (x :: y :: segs))
    with (x ++ String slash (joinWith "/" (y :: segs))).
  rewrite split_app_sep, (split_slashFree _ Hx), IH; [reflexivity | discriminate | exact Hrest].
Qed.

Lemma plainName_spec (n : string) :
  plainName n = true ->
  slashFree n = true /\ (n =? "") = false /\ (n =? ".") = false /\ (n =? "..") = false.
Proof.
  unfold plainName. rewrite !andb_true_iff, !negb_true_iff. tauto.
Qed.

Lemma normalizeSegments_snoc (allowAboveRoot : bool) (n : string)
  (segs stack : list string) :
  plainName n = true ->
  Path.normalizeSegments allowAboveRoot (app segs [n]) stack
  = app (Path.normalizeSegments allowAboveRoot segs stack) [n].
Proof.
  intros Hn. apply plainName_spec in Hn as [_ [H0 [H1 H2]]].
  revert stack; induction segs as [|seg segs IH]; intros stack; simpl.
  - now rewrite H0, H1, H2.
  - destruct ((seg =? "") || (seg =? ".")); [apply IH|].
    destruct (seg =? ".."); [|apply IH].
    destruct stack as [|top below]; [apply IH|].
    destruct (top =? ".."); apply IH.
Qed.

Lemma normalizeSegments_slashFree (allowAboveRoot : bool) (segs stack : list string) :
  Forall (fun x => slashFree x = true) segs ->
  Forall (fun x => slashFree x = true) stack ->
  Forall (fun x => slashFree x = true)
    (Path.normalizeSegments allowAboveRoot segs stack).
Proof.
  intros Hsegs. revert stack.
  induction Hsegs as [|seg segs Hseg Hsegs IH]; intros stack Hst; simpl.
  - apply Forall_rev. exact Hst.
  - destruct ((seg =? "") || (seg =? ".")); [now apply IH|].
    destruct (seg =? "..").
    + destruct stack as [|top below].
      * apply IH. destruct allowAboveRoot; repeat constructor.
      * inversion Hst; subst.
        destruct (top =? ".."); [|now apply IH].
        apply IH. destruct allowAboveRoot; [constructor; auto | assumption].
    + apply IH. now constructor.
Qed.

Lemma lastSegment_snoc (p : string) (segs : list string) (n : string) :
  split slash p = app segs [n] -> (n =? "") = false -> Path.lastSegment p = n.
Proof.
  intros H Hn. unfold Path.lastSegment. rewrite H, filter_app. simpl.
  rewrite Hn. simpl. apply last_last.
Qed.

Lemma endsWithSlash_app (a n : string) :
  n <> "" -> Path.endsWithSlash (a ++ n) = Path.endsWithSlash n.
Proof.
  intros Hn. induction a as [|c a IH]; [reflexivity|].
  simpl. destruct (a ++ n) eqn:E; [|exact IH].
  apply append_eq_empty in E as [_ E]. contradiction.
Qed.

Lemma endsWithSlash_slashFree (n : string) :
  slashFree n = true -> Path.endsWithSlash n = false.
Proof.
  induction n as [|c n IH]; [reflexivity|]. simpl.
  intros H. apply andb_true_iff in H as [Hc Hn]. apply negb_true_iff in Hc.
  destruct n; [exact Hc | now apply IH].
Qed.

(** Normalising a path that ends in a plain name keeps that name last. *)
Lemma normalize_lastSegment (p : string) (segs : list string) (n : string) :
  split slash p = app segs [n] ->
  plainName n = true ->
  Path.endsWithSlash p = false ->
  Path.lastSegment (Path.normalize p) = n.
Proof.
  intros Hsplit Hn Hend.
  destruct (plainName_spec _ Hn) as [Hfree [H0 _]].
  unfold Path.normalize.
  destruct (p =? "") eqn:Hp.
  { apply String.eqb_eq in Hp. subst p. simpl in Hsplit.
    destruct segs as [|? [|? ?]]; simpl in Hsplit; try discriminate.
    injection Hsplit as <-. discriminate. }
  cbv zeta. rewrite Hend. unfold Path.normalizeString.
  rewrite Hsplit, normalizeSegments_snoc by exact Hn.
  set (kept := Path.normalizeSegments (negb (Path.isAbsolute p)) segs []).
  assert (Hkept : Forall (fun x => slashFree x = true) (app kept [n])).
  { apply Forall_app. split; [|now repeat constructor].
    apply normalizeSegments_slashFree; [|constructor].
    pose proof (split_pieces_slashFree p) as Hall. rewrite Hsplit in Hall.
    now apply Forall_app in Hall. }
  assert (Hne : app kept [n] <> []) by (destruct kept; discriminate).
  pose proof (split_joinWith Hne Hkept) as Hround.
  destruct (joinWith "/" (app kept [n]) =? "") eqn:Hq.
  { apply String.eqb_eq in Hq. rewrite Hq in Hround. simpl in Hround.
    destruct kept as [|? [|? ?]]; simpl in Hround; try discriminate.
    injection Hround as <-. discriminate. }
  destruct (Path.isAbsolute p).
  - apply (@lastSegment_snoc _ ("" :: kept)); [|exact H0].
    change ("/" ++ joinWith "/" (app kept [n]))
      with ("" ++ String slash (joinWith "/" (app kept [n]))).
    rewrite split_app_sep, Hround. reflexivity.
  - now apply (@lastSegment_snoc _ kept).
Qed.

(** The last segment of [path.join(dir, name)] is [name], and so is what
    [path.extname] sees. *)
Lemma join_lastSegment (dir n : string) :
  plainName n = true -> Path.lastSegment (Path.join dir n) = n.
Proof.
  intros Hn. destruct (plainName_spec _ Hn) as [Hfree [H0 _]].
  unfold Path.join. rewrite H0.
  destruct (dir =? "").
  - apply (@normalize_lastSegment n [] n); [now apply split_slashFree | exact Hn|].
    now apply endsWithSlash_slashFree.
  - apply (@normalize_lastSegment _ (split slash dir) n); [|exact Hn|].
    + change (dir ++ "/" ++ n) with (dir ++ String slash n).
      now rewrite split_app_sep, (split_slashFree _ Hfree).
    + change (dir ++ "/" ++ n) with (dir ++ String slash n).
      rewrite endsWithSlash_app by discriminate.
      change (String slash n) with ("/" ++ n).
      rewrite (@endsWithSlash_app "/" n).
      * now apply endsWithSlash_slashFree.
      * intros ->. discriminate.
Qed.

Lemma lastSegment_plainName (n : string) :
  plainName n = true -> Path.lastSegment n = n.
Proof.
  intros Hn. destruct (plainName_spec _ Hn) as [Hfree [H0 _]].
  apply (@lastSegment_snoc n [] n); [now apply split_slashFree | exact H0].
Qed.

Lemma extname_join (dir n : string) :
  plainName n = true -> Path.extname (Path.join dir n) = Path.extname n.
Proof.
  intros Hn. unfold Path.extname.
  now rewrite join_lastSegment, lastSegment_plainName by exact Hn.
Qed.

(** ** The content preview *)

Lemma getContentPreview_eq (content query : string) :
  getContentPreview content query =
  firstn 3 (filter (fun p => isMatch (line p) query) (numberedLines content)).
Proof. reflexivity. Qed.

Lemma mapi_from_In {A B : Type} (f : A -> nat -> B) (xs : list A) (i : nat) (y : B) :
  In y (mapi_from f i xs) <->
  exists k x, nth_error xs k = Some x /\ y = f x (i + k).
Proof.
  revert i; induction xs as [|x xs IH]; intros i; simpl.
  - split; [tauto | intros [[|k] [x [H _]]]; discriminate].
  - rewrite IH. split.
    + intros [<- | [k [x' [Hk ->]]]].
      * exists 0, x. now rewrite Nat.add_0_r.
      * exists (S k), x'. split; [exact Hk | f_equal; lia].
    + intros [[|k] [x' [Hk ->]]]; simpl in Hk.
      * injection Hk as ->. left. now rewrite Nat.add_0_r.
      * right. exists k, x'. split; [exact Hk | f_equal; lia].
Qed.

Lemma mapi_from_numbers (xs : list string) (i : nat) :
  map number (mapi_from (fun l index => {| line := trim l; number := index + 1 |}) i xs)
  = seq (i + 1) (List.length xs).
Proof.
  revert i; induction xs as [|x xs IH]; intros i; simpl; [reflexivity|].
  f_equal. rewrite IH. f_equal.
Qed.

Lemma seq_sorted (a n : nat) : StronglySorted lt (seq a n).
Proof.
  revert a; induction n as [|n IH]; intros a; simpl; constructor.
  - apply IH.
  - apply Forall_forall. intros x Hx. apply in_seq in Hx. lia.
Qed.

Lemma numberedLines_numbers (content : string) :
  map number (numberedLines content) = seq 1 (List.length (split LF content)).
Proof. apply (mapi_from_numbers (split LF content) 0). Qed.

Lemma numberedLines_In (content : string) (p : PreviewLine) :
  In p (numberedLines content) <->
  exists k l, nth_error (split LF content) k = Some l
              /\ p = {| line := trim l; number := k + 1 |}.
Proof. unfold numberedLines, mapi. now rewrite mapi_from_In. Qed.

Lemma firstn_In {A : Type} (k : nat) (xs : list A) (x : A) :
  In x (firstn k xs) -> In x xs.
Proof.
  intros H. rewrite <- (firstn_skipn k xs). apply in_or_app. now left.
Qed.

Section SortedPrefix.

Variable A : Type.
Variable num : A -> nat.
Variable keep : A -> bool.

Lemma sorted_filter (xs : list A) :
  StronglySorted lt (map num xs) -> StronglySorted lt (map num (filter keep xs)).
Proof.
  induction xs as [|x xs IH]; simpl; intros H; [constructor|].
  inversion H as [|? ? Hs Hall]; subst.
  destruct (keep x); simpl; [constructor|]; auto.
  rewrite Forall_forall in *. intros n Hn.
  apply in_map_iff in Hn as [y [<- Hy]]. apply filter_In in Hy as [Hy _].
  apply Hall, in_map, Hy.
Qed.

Lemma sorted_firstn (k : nat) (xs : list A) :
  StronglySorted lt (map num xs) -> StronglySorted lt (map num (firstn k xs)).
Proof.
  revert k; induction xs as [|x xs IH]; intros [|k] H; simpl; try constructor.
  - inversion H; subst. auto.
  - inversion H as [|? ? _ Hall]; subst.
    rewrite Forall_forall in *. intros n Hn.
    apply in_map_iff in Hn as [y [<- Hy]].
    apply Hall, in_map. eapply firstn_In; eauto.
Qed.

(** In a list sorted by [num], an element is among the first [k] or comes
    after [k] smaller ones. *)
Lemma firstn_earliest (k : nat) (xs : list A) (x : A) :
  StronglySorted lt (map num xs) -> In x xs ->
  In x (firstn k xs)
  \/ (List.length (firstn k xs) = k /\ forall y, In y (firstn k xs) -> num y < num x).
Proof.
  clear keep.
  revert k; induction xs as [|m xs IH]; intros k Hs Hx; [destruct Hx|].
  destruct k as [|k]; simpl.
  - right. split; [reflexivity | tauto].
  - inversion Hs as [|? ? Hs' Hall]; subst. destruct Hx as [-> | Hx].
    + left. now left.
    + destruct (IH k Hs' Hx) as [Hin | [Hlen Hlt]].
      * left. now right.
      * right. split; [now rewrite Hlen|].
        intros y [<- | Hy]; [|auto].
        rewrite Forall_forall in Hall. apply Hall, in_map, Hx.
Qed.

End SortedPrefix.

Lemma numberedLines_sorted (content : string) :
  StronglySorted lt (map number (numberedLines content)).
Proof. rewrite numberedLines_numbers. apply seq_sorted. Qed.

Lemma filter_all {A : Type} (f : A -> bool) (xs : list A) :
  (forall x, In x xs -> f x = true) -> filter f xs = xs.
Proof.
  induction xs as [|x xs IH]; simpl; intros H; [reflexivity|].
  rewrite (H x (or_introl eq_refl)). f_equal. apply IH. auto.
Qed.

Lemma isMatch_empty_query (content : string) : isMatch content "" = true.
Proof. apply includes_empty. Qed.

Lemma getContentPreview_empty_query (content : string) :
  getContentPreview content "" = firstn 3 (numberedLines content).
Proof.
  rewrite getContentPreview_eq. f_equal. apply filter_all.
  intros p _. apply isMatch_empty_query.
Qed.

(** A query that spans two lines matches the content although no single
    line holds it: the preview is then empty. *)
Example match_across_lines :
  isMatch ("first" ++ String LF "second") ("st" ++ String LF "se") = true
  /\ getContentPreview ("first" ++ String LF "second") ("st" ++ String LF "se") = [].
Proof. split; reflexivity. Qed.

Example preview_first_three :
  getContentPreview
    ("  To: Bob " ++ String LF "bob@x.org" ++ String LF "none" ++ String LF
     "BOB again" ++ String LF "bob five")
    "bob"
  = [ {| line := "To: Bob"; number := 1 |};
      {| line := "bob@x.org"; number := 2 |};
      {| line := "BOB again"; number := 4 |} ].
Proof. reflexivity. Qed.


(** ** The recursive walker *)

(** The defining equation of [searchRecursive], as the source reads. *)
Lemma searchRecursive_unfold (env : Env) (dir query : string)
  (fileTypes : list string) (results : list MatchRecord)
  (currentDepth maxDepth : nat) :
  searchRecursive env dir query fileTypes results currentDepth maxDepth =
  if (maxDepth <? currentDepth)%nat then results
  else
    match fs_readdir env dir with
    | Throw _ => results
    | Ok items =>
        fold_left
          (visitItem
             (fun itemPath results =>
                searchRecursive env itemPath query fileTypes results
                  (currentDepth + 1) maxDepth)
             env dir query fileTypes)
          items results
    end.
Proof.
  unfold searchRecursive.
  destruct (maxDepth <? currentDepth)%nat eqn:Hd.
  - destruct (S maxDepth - currentDepth); cbn [searchRecursive_fuel]; now rewrite Hd.
  - apply Nat.ltb_ge in Hd.
    replace (S maxDepth - currentDepth) with (S (maxDepth - currentDepth)) by lia.
    replace (S maxDepth - (currentDepth + 1)) with (maxDepth - currentDepth) by lia.
    cbn [searchRecursive_fuel]. apply Nat.ltb_ge in Hd. rewrite Hd. reflexivity.
Qed.

Lemma fold_left_ext_all {A B : Type} (f g : B -> A -> B) (items : list A) :
  (forall acc item, f acc item = g acc item) ->
  forall acc, fold_left f items acc = fold_left g items acc.
Proof.
  intros H. induction items as [|item items IH]; intros acc; simpl;
    [reflexivity | now rewrite H, IH].
Qed.

(** More fuel than the depth test allows changes nothing: the walker is
    total and [searchRecursive] is its value. *)
Lemma searchRecursive_fuel_enough (fuel : nat) (env : Env) (dir query : string)
  (fileTypes : list string) (results : list MatchRecord)
  (currentDepth maxDepth : nat) :
  S maxDepth - currentDepth <= fuel ->
  searchRecursive_fuel fuel env dir query fileTypes results currentDepth maxDepth
  = searchRecursive env dir query fileTypes results currentDepth maxDepth.
Proof.
  revert dir results currentDepth.
  induction fuel as [|fuel IH]; intros dir results d Hf.
  - unfold searchRecursive. replace (S maxDepth - d) with 0 by lia. reflexivity.
  - rewrite searchRecursive_unfold. cbn [searchRecursive_fuel].
    destruct (maxDepth <? d)%nat eqn:Hd; [reflexivity|].
    apply Nat.ltb_ge in Hd.
    destruct (fs_readdir env dir) as [items|]; [|reflexivity].
    apply fold_left_ext_all. intros acc item.
    unfold visitItem, skipped, matchOf, isMatch.
    destruct (startsWith (name item) "." || arrayIncludes excludeNames (name item));
      [reflexivity|].
    destruct (isDirectory item); [|reflexivity].
    apply IH. lia.
Qed.

Lemma fold_left_In {A B : Type} (step : list B -> A -> list B)
  (P : A -> B -> Prop) (items : list A) :
  (forall acc item r, In item items ->
     (In r (step acc item) <-> In r acc \/ P item r)) ->
  forall acc r,
    In r (fold_left step items acc) <->
    In r acc \/ exists item, In item items /\ P item r.
Proof.
  induction items as [|item items IH]; intros Hstep acc r; simpl.
  - split; [tauto | intros [H | [item [[] _]]]; exact H].
  - rewrite IH by (intros; apply Hstep; now right).
    rewrite Hstep by now left.
    split.
    + intros [[H | H] | [item' [Hin H]]]; eauto 6.
    + intros [H | [item' [[<- | Hin] H]]]; eauto 6.
Qed.

Lemma visitItem_In (recurse : string -> list MatchRecord -> list MatchRecord)
  (env : Env) (dir query : string) (fileTypes : list string) (budget : nat) :
  (forall itemPath acc r,
     In r (recurse itemPath acc) <->
     In r acc \/ exists ds itemName,
                   List.length ds < budget
                   /\ Found env query fileTypes itemPath ds itemName r) ->
  forall acc item r,
    In r (visitItem recurse env dir query fileTypes acc item) <->
    In r acc \/ visitAdds env query fileTypes dir budget item r.
Proof.
  intros Hrec acc [itemName k] r. unfold visitItem, visitAdds, isDirectory, isFile.
  simpl. destruct (skipped itemName) eqn:Hs.
  { split; [tauto | intros [H | [H _]]; [exact H | discriminate]]. }
  destruct k; simpl.
  - rewrite Hrec. split.
    + intros [H | H]; [now left | right]. split; [reflexivity | left; split; auto].
    + intros [H | [_ [[_ H] | [H _]]]]; [now left | now right | discriminate].
  - destruct (arrayIncludes fileTypes (toLowerCase (Path.extname itemName))) eqn:He.
    2:{ split; [tauto | intros [H | [_ [[H _] | [_ [H _]]]]]];
        [exact H | discriminate | discriminate]. }
    destruct (readFile env (Path.join dir itemName)) as [content metadata|err] eqn:Hr.
    2:{ split; [tauto|]. intros [H | [_ [[H _] | [_ [_ [c [md [H _]]]]]]]];
        [exact H | discriminate | discriminate]. }
    destruct (isMatch content query) eqn:Hm.
    + rewrite in_app_iff. simpl. split.
      * intros [H | [<- | []]]; [now left | right].
        split; [reflexivity | right]. repeat split; eauto.
      * intros [H | [_ [[H _] | [_ [_ [c [md [H1 [H2 ->]]]]]]]]];
          [now left | discriminate |].
        injection H1 as <- <-. right. now left.
    + split; [tauto|]. intros [H | [_ [[H _] | [_ [_ [c [md [H1 [H2 _]]]]]]]]];
        [exact H | discriminate |].
      injection H1 as <- <-. congruence.
  - split; [tauto | intros [H | [_ [[H _] | [H _]]]]];
      [exact H | discriminate | discriminate].
Qed.

(** The files below [dir] that the loop over [items] reports are those
    [Found] within [budget] directory levels. *)
Lemma visitAdds_Found (env : Env) (query : string) (fileTypes : list string)
  (dir : string) (budget : nat) (items : list Dirent) (r : MatchRecord) :
  fs_readdir env dir = Ok items ->
  (exists item, In item items /\ visitAdds env query fileTypes dir budget item r)
  <->
  (exists ds itemName,
     List.length ds <= budget /\ Found env query fileTypes dir ds itemName r).
Proof.
  intros Hdir. split.
  - intros [[n k] [Hin [Hs [[Hk [ds [itemName [Hlen HF]]]] | [Hk [He Hread]]]]]];
      simpl in *; subst k.
    + exists (n :: ds), itemName. split; [simpl; lia|].
      destruct HF as [Hc [Hall [Hf Hrest]]].
      split; [|split; [|split]]; simpl; eauto.
    + exists [], n. split; [simpl; lia|].
      unfold Found, fileAt. simpl. repeat split; eauto.
  - intros [ds [itemName [Hlen [Hc [Hall [Hf [Hs [He Hread]]]]]]]].
    destruct ds as [|n ds]; simpl in *.
    + destruct Hf as [items' [Hdir' Hin]]. rewrite Hdir in Hdir'.
      injection Hdir' as <-.
      exists (mkDirent itemName FileK). split; [exact Hin|].
      split; [exact Hs | right; auto].
    + destruct Hc as [[items' [Hdir' Hin]] Hc]. rewrite Hdir in Hdir'.
      injection Hdir' as <-. inversion Hall as [|? ? Hn Hall']; subst.
      exists (mkDirent n DirK). split; [exact Hin|].
      split; [exact Hn | left]. split; [reflexivity|].
      exists ds, itemName. split; [lia|]. unfold Found. auto 10.
Qed.

Lemma Found_readdir (env : Env) (query : string) (fileTypes : list string)
  (dir : string) (ds : list string) (itemName : string) (r : MatchRecord) :
  Found env query fileTypes dir ds itemName r ->
  exists items, fs_readdir env dir = Ok items.
Proof.
  intros [Hc [_ [Hf _]]]. destruct ds; simpl in *.
  - destruct Hf as [items [H _]]. eauto.
  - destruct Hc as [[items [H _]] _]. eauto.
Qed.

(** The records that a call of [searchRecursive] adds to [results]. *)
Lemma searchRecursive_In (env : Env) (query : string) (fileTypes : list string)
  (maxDepth : nat) (dir : string) (results : list MatchRecord)
  (currentDepth : nat) (r : MatchRecord) :
  In r (searchRecursive env dir query fileTypes results currentDepth maxDepth)
  <->
  In r results
  \/ (currentDepth <= maxDepth
      /\ exists ds itemName,
           List.length ds <= maxDepth - currentDepth
           /\ Found env query fileTypes dir ds itemName r).
Proof.
  remember (S maxDepth - currentDepth) as k eqn:Hk.
  assert (Hle : S maxDepth - currentDepth <= k) by lia. clear Hk.
  revert dir results currentDepth r Hle.
  induction k as [|k IH]; intros dir results d r Hle;
    rewrite searchRecursive_unfold.
  - replace (maxDepth <? d)%nat with true by (symmetry; apply Nat.ltb_lt; lia).
    split; [tauto | intros [H | [H _]]; [exact H | lia]].
  - destruct (maxDepth <? d)%nat eqn:Hd.
    { apply Nat.ltb_lt in Hd. split; [tauto | intros [H | [H _]]; [exact H | lia]]. }
    apply Nat.ltb_ge in Hd.
    destruct (fs_readdir env dir) as [items|msg] eqn:Hdir.
    + rewrite (fold_left_In _ (visitAdds env query fileTypes dir (maxDepth - d))).
      * rewrite (@visitAdds_Found env query fileTypes dir (maxDepth - d) items r Hdir).
        tauto.
      * intros acc item r' _. apply visitItem_In. intros itemPath acc' r''.
        rewrite IH by lia. split.
        -- intros [H | [H1 [ds [n [H2 H3]]]]]; [now left | right].
           exists ds, n. split; [lia | exact H3].
        -- intros [H | [ds [n [H2 H3]]]]; [now left | right].
           split; [lia|]. exists ds, n. split; [lia | exact H3].
    + split; [tauto|]. intros [H | [_ [ds [n [_ HF]]]]]; [exact H|].
      apply Found_readdir in HF as [items H]. congruence.
Qed.

Lemma searchInLocation_In (env : Env) (location query : string)
  (fileTypes : list string) (r : MatchRecord) :
  In r (searchInLocation env location query fileTypes) <->
  exists root ds itemName,
    resolve env location = Ok root
    /\ List.length ds <= 3
    /\ Found env query fileTypes root ds itemName r.
Proof.
  unfold searchInLocation. destruct (resolve env location) as [root|msg].
  - rewrite searchRecursive_In. simpl. split.
    + intros [[] | [_ [ds [n [H1 H2]]]]]. exists root, ds, n. auto.
    + intros [root' [ds [n [H [H1 H2]]]]]. injection H as <-. right.
      split; [lia|]. exists ds, n. auto.
  - simpl. split; [tauto | intros [root [ds [n [H _]]]]; discriminate].
Qed.

Lemma fold_left_app_flat_map {A B : Type} (f : A -> list B) (xs : list A)
  (acc : list B) :
  fold_left (fun acc x => app acc (f x)) xs acc = app acc (flat_map f xs).
Proof.
  revert acc; induction xs as [|x xs IH]; intros acc; simpl.
  - now rewrite app_nil_r.
  - now rewrite IH, app_assoc.
Qed.

(** [searchFilesAdvanced] always succeeds, reports the locations it was
    given (or the defaults), counts every match and keeps the first 50. *)
Lemma searchFilesAdvanced_eq (this : Server) (env : Env) (query : string)
  (customLocations customFileTypes : option (list string)) :
  searchFilesAdvanced this env query customLocations customFileTypes =
  let searchLocations := orDefault customLocations (this_searchLocations this) in
  let fileTypes := orDefault customFileTypes (this_emailFileTypes this) in
  Success
    {| query := query;
       searchLocations := searchLocations;
       totalResults := List.length (allMatches env query searchLocations fileTypes);
       results := firstn 50 (allMatches env query searchLocations fileTypes) |}.
Proof.
  unfold searchFilesAdvanced, allMatches. cbv zeta.
  now rewrite (fold_left_app_flat_map
                 (fun location =>
                    searchInLocation env location query
                      (orDefault customFileTypes (this_emailFileTypes this)))).
Qed.

(** ** The orchestrator *)

Lemma arrayIncludes_In (xs : list string) (x : string) :
  arrayIncludes xs x = true <-> In x xs.
Proof.
  unfold arrayIncludes. rewrite existsb_exists. split.
  - intros [y [Hy He]]. apply String.eqb_eq in He. now subst.
  - intros H. exists x. split; [exact H | apply String.eqb_refl].
Qed.

Lemma skipped_spec (itemName : string) :
  skipped itemName = true <->
  (exists rest, itemName = "." ++ rest)
  \/ In itemName ["node_modules"; "vendor"; "venv"; "__pycache__"].
Proof.
  unfold skipped. now rewrite orb_true_iff, startsWith_spec, arrayIncludes_In.
Qed.

Lemma allMatches_In (env : Env) (query : string)
  (searchLocations fileTypes : list string) (r : MatchRecord) :
  In r (allMatches env query searchLocations fileTypes) <->
  exists location root ds itemName,
    In location searchLocations
    /\ resolve env location = Ok root
    /\ List.length ds <= 3
    /\ Found env query fileTypes root ds itemName r.
Proof.
  unfold allMatches. rewrite in_flat_map. split.
  - intros [location [Hin H]]. apply searchInLocation_In in H.
    destruct H as [root [ds [n H]]]. exists location, root, ds, n. tauto.
  - intros [location [root [ds [n [Hin H]]]]]. exists location.
    split; [exact Hin|]. apply searchInLocation_In. eauto.
Qed.

(** The fields of a successful answer. *)
Lemma searchFilesAdvanced_fields (this : Server) (env : Env) (query : string)
  (customLocations customFileTypes : option (list string)) (sr : SearchSuccess) :
  searchFilesAdvanced this env query customLocations customFileTypes = Success sr ->
  searchLocations sr = orDefault customLocations (this_searchLocations this)
  /\ results sr =
     firstn 50
       (allMatches env query
          (orDefault customLocations (this_searchLocations this))
          (orDefault customFileTypes (this_emailFileTypes this)))
  /\ totalResults sr =
     List.length
       (allMatches env query
          (orDefault customLocations (this_searchLocations this))
          (orDefault customFileTypes (this_emailFileTypes this))).
Proof.
  rewrite searchFilesAdvanced_eq. cbv zeta. intros H.
  repeat split; symmetry.
  - exact (f_equal (fun v => match v with
                             | Success s => searchLocations s
                             | Failure _ => []
                             end) H).
  - exact (f_equal (fun v => match v with
                             | Success s => results s
                             | Failure _ => []
                             end) H).
  - exact (f_equal (fun v => match v with
                             | Success s => totalResults s
                             | Failure _ => 0
                             end) H).
Qed.

(** Every record of the answer was found by the walk of one of the
    locations, within three directory levels of it. *)
Lemma results_Found (this : Server) (env : Env) (query : string)
  (customLocations customFileTypes : option (list string))
  (sr : SearchSuccess) (r : MatchRecord) :
  searchFilesAdvanced this env query customLocations customFileTypes = Success sr ->
  In r (results sr) ->
  exists location root ds itemName,
    In location (searchLocations sr)
    /\ resolve env location = Ok root
    /\ List.length ds <= 3
    /\ Found env query (orDefault customFileTypes (this_emailFileTypes this))
         root ds itemName r.
Proof.
  intros H Hin.
  destruct (searchFilesAdvanced_fields H) as [Hl [Hr _]].
  rewrite Hr in Hin. rewrite Hl.
  apply firstn_In in Hin. now apply allMatches_In in Hin.
Qed.

Lemma searchFilesAdvanced_succeeds (this : Server) (env : Env) (query : string)
  (customLocations customFileTypes : option (list string)) :
  exists sr,
    searchFilesAdvanced this env query customLocations customFileTypes = Success sr.
Proof. rewrite searchFilesAdvanced_eq. cbv zeta. eexists. reflexivity. Qed.

(** C1. Whatever the query, the locations and the file types, the answer of
    [searchFilesAdvanced] is a success whose [results] hold at most 50
    records, however many files matched ([totalResults] counts them all). *)
Theorem results_at_most_50 (this : Server) (env : Env) (query : string)
  (customLocations customFileTypes : option (list string)) :
  exists sr,
    searchFilesAdvanced this env query customLocations customFileTypes = Success sr
    /\ List.length (results sr) <= 50
    /\ List.length (results sr) <= totalResults sr.
Proof.
  rewrite searchFilesAdvanced_eq. cbv zeta. eexists. split; [reflexivity|].
  cbn [results totalResults]. rewrite length_firstn. lia.
Qed.

Example cap_reached :
  exists sr,
    searchFilesAdvanced server0 (treeEnv "/" (manyFiles 60)) "hello"
      (Some ["/data"]) None = Success sr
    /\ totalResults sr = 60
    /\ List.length (results sr) = 50.
Proof. eexists. split; [vm_compute; reflexivity | split; reflexivity]. Qed.

(** C2, as amended. Each walk stops below depth 3, and every record of the
    answer belongs to a file that lies at most three directory levels below
    the resolved location whose walk found it. *)
Theorem results_within_depth_3 (this : Server) (env : Env) (query : string)
  (customLocations customFileTypes : option (list string))
  (sr : SearchSuccess) (r : MatchRecord) :
  searchFilesAdvanced this env query customLocations customFileTypes = Success sr ->
  In r (results sr) ->
  (forall dir fileTypes acc depth,
     3 < depth -> searchRecursive env dir query fileTypes acc depth 3 = acc)
  /\ exists location root ds itemName,
       In location (searchLocations sr)
       /\ resolve env location = Ok root
       /\ List.length ds <= 3
       /\ dirChain env root ds
       /\ fileAt env (descend root ds) itemName
       /\ file r = Path.join (descend root ds) itemName.
Proof.
  intros H Hin. split.
  - intros dir fileTypes acc depth Hd. rewrite searchRecursive_unfold.
    now replace (3 <? depth)%nat with true by (symmetry; apply Nat.ltb_lt; lia).
  - destruct (results_Found r H Hin)
      as [location [root [ds [n [Hl [Hr [Hlen HF]]]]]]].
    destruct HF as [Hc [_ [Hf [_ [_ [c [md [_ [_ ->]]]]]]]]].
    exists location, root, ds, n. simpl. auto 10.
Qed.

(** From the single location [/data] the walk reaches [g.txt], three
    directories down, and not [f.txt], one directory further. *)
Example single_location_depth :
  exists sr,
    searchFilesAdvanced server0 (treeEnv "/" deepTree) "hello"
      (Some ["/data"]) (Some [".txt"]) = Success sr
    /\ map file (results sr) = ["/data/a/b/c/g.txt"].
Proof. eexists. split; [vm_compute; reflexivity | reflexivity]. Qed.

(** C2, as stated, fails when one location lies below another: with the
    locations [/data] and [/data/a], the file [/data/a/b/c/d/f.txt] is in the
    results although it lies four directory levels below [/data]. *)
Lemma nested_location_depth_counterexample :
  exists sr r,
    searchFilesAdvanced server0 (treeEnv "/" deepTree) "hello"
      (Some ["/data"; "/data/a"]) (Some [".txt"]) = Success sr
    /\ In "/data" (searchLocations sr)
    /\ resolve (treeEnv "/" deepTree) "/data" = Ok "/data"
    /\ dirChain (treeEnv "/" deepTree) "/data" ["a"; "b"; "c"; "d"]
    /\ 3 < List.length ["a"; "b"; "c"; "d"]
    /\ fileAt (treeEnv "/" deepTree) (descend "/data" ["a"; "b"; "c"; "d"]) "f.txt"
    /\ In r (results sr)
    /\ file r = Path.join (descend "/data" ["a"; "b"; "c"; "d"]) "f.txt".
Proof.
  eexists. eexists. split; [vm_compute; reflexivity|].
  split; [simpl; auto|]. split; [reflexivity|].
  split; [simpl; repeat split; eexists; (split; [vm_compute; reflexivity | simpl; auto])|].
  split; [simpl; lia|].
  split; [eexists; split; [vm_compute; reflexivity | simpl; auto]|].
  split; [simpl; do 2 right; left; reflexivity | reflexivity].
Qed.

(** The scenario of the specification, and the same query in capitals. *)
Example scenario_world :
  searchFilesAdvanced server0 (treeEnv "/" scenarioTree) "world"
    (Some ["/data"]) (Some [".txt"; ".md"])
  = Success (scenarioAnswer "world").
Proof. vm_compute. reflexivity. Qed.

Example scenario_WORLD :
  searchFilesAdvanced server0 (treeEnv "/" scenarioTree) "WORLD"
    (Some ["/data"]) (Some [".txt"; ".md"])
  = Success (scenarioAnswer "WORLD").
Proof. vm_compute. reflexivity. Qed.

Lemma results_within_depth_3_witness :
  (forall dir fileTypes acc depth,
     3 < depth ->
     searchRecursive (treeEnv "/" scenarioTree) dir "world" fileTypes acc depth 3
     = acc)
  /\ exists location root ds itemName,
       In location (searchLocations (scenarioAnswer "world"))
       /\ resolve (treeEnv "/" scenarioTree) location = Ok root
       /\ List.length ds <= 3
       /\ dirChain (treeEnv "/" scenarioTree) root ds
       /\ fileAt (treeEnv "/" scenarioTree) (descend root ds) itemName
       /\ file scenarioMatch = Path.join (descend root ds) itemName.
Proof.
  apply (@results_within_depth_3 server0 (treeEnv "/" scenarioTree) "world"
           (Some ["/data"]) (Some [".txt"; ".md"])
           (scenarioAnswer "world") scenarioMatch).
  - vm_compute. reflexivity.
  - simpl. left. reflexivity.
Defined.

(** C4, as amended. Every record of the answer belongs to a file reached from
    the resolved location whose walk found it through names that the walker
    does not skip: neither a directory on the way nor the file itself has a
    name that starts with a dot or is one of [node_modules], [vendor], [venv]
    and [__pycache__].  The name of the location itself and of the
    directories above it is not looked at. *)
Theorem results_avoid_skipped_names (this : Server) (env : Env) (query : string)
  (customLocations customFileTypes : option (list string))
  (sr : SearchSuccess) (r : MatchRecord) :
  searchFilesAdvanced this env query customLocations customFileTypes = Success sr ->
  In r (results sr) ->
  exists location root ds itemName,
    In location (searchLocations sr)
    /\ resolve env location = Ok root
    /\ dirChain env root ds
    /\ fileAt env (descend root ds) itemName
    /\ file r = Path.join (descend root ds) itemName
    /\ forall n, In n (app ds [itemName]) ->
         ~ (exists rest, n = "." ++ rest)
         /\ ~ In n ["node_modules"; "vendor"; "venv"; "__pycache__"].
Proof.
  intros H Hin.
  destruct (results_Found r H Hin)
    as [location [root [ds [itemName [Hl [Hr [_ HF]]]]]]].
  destruct HF as [Hc [Hall [Hf [Hs [_ [c [md [_ [_ ->]]]]]]]]].
  exists location, root, ds, itemName. simpl.
  repeat (split; [assumption || reflexivity|]).
  intros n Hn.
  assert (Hsk : skipped n = false).
  { apply in_app_or in Hn as [Hn | [<- | []]]; [|exact Hs].
    rewrite Forall_forall in Hall. now apply Hall. }
  split; intros Hbad;
    assert (Ht : skipped n = true) by (apply skipped_spec; auto); congruence.
Qed.

Lemma results_avoid_skipped_names_witness :
  exists location root ds itemName,
    In location (searchLocations (scenarioAnswer "hello"))
    /\ resolve (treeEnv "/" scenarioTree) location = Ok root
    /\ dirChain (treeEnv "/" scenarioTree) root ds
    /\ fileAt (treeEnv "/" scenarioTree) (descend root ds) itemName
    /\ file scenarioMatch = Path.join (descend root ds) itemName
    /\ forall n, In n (app ds [itemName]) ->
         ~ (exists rest, n = "." ++ rest)
         /\ ~ In n ["node_modules"; "vendor"; "venv"; "__pycache__"].
Proof.
  apply (@results_avoid_skipped_names server0 (treeEnv "/" scenarioTree) "hello"
           (Some ["/data"]) (Some [".txt"; ".md"])
           (scenarioAnswer "hello") scenarioMatch).
  - vm_compute. reflexivity.
  - simpl. left. reflexivity.
Defined.

(** From the single location [/data] nothing below [.git] or
    [node_modules] is reported, nor the hidden file. *)
Example single_location_skips :
  exists sr,
    searchFilesAdvanced server0 (treeEnv "/" hiddenTree) "hello"
      (Some ["/data"]) (Some [".txt"]) = Success sr
    /\ map file (results sr) = ["/data/readme.txt"].
Proof. eexists. split; [vm_compute; reflexivity | reflexivity]. Qed.

(** C4, as stated, fails when a location is itself a hidden directory: with
    the locations [/data] and [/data/.git], the walk of [/data] skips the
    entry [.git], yet [/data/.git/notes.txt], which lies beneath it, is in the
    results. *)
Lemma hidden_location_counterexample :
  exists sr items item r,
    searchFilesAdvanced server0 (treeEnv "/" hiddenTree) "hello"
      (Some ["/data"; "/data/.git"]) (Some [".txt"]) = Success sr
    /\ fs_readdir (treeEnv "/" hiddenTree) "/data" = Ok items
    /\ In item items
    /\ isDirectory item = true
    /\ startsWith (name item) "." = true
    /\ fileAt (treeEnv "/" hiddenTree) (Path.join "/data" (name item)) "notes.txt"
    /\ In r (results sr)
    /\ file r = Path.join (Path.join "/data" (name item)) "notes.txt".
Proof.
  eexists. eexists. exists (mkDirent ".git" DirK). eexists.
  split; [vm_compute; reflexivity|].
  split; [vm_compute; reflexivity|].
  split; [simpl; auto|]. split; [reflexivity|]. split; [reflexivity|].
  split; [eexists; split; [vm_compute; reflexivity | simpl; auto]|].
  split; [simpl; right; left; reflexivity | reflexivity].
Qed.

(** C5. Every record of the answer belongs to a regular file whose extension,
    lower-cased and with its leading dot, is one of the file types in force
    (those supplied, or the defaults of the server when none are), and [type]
    holds that extension; so a file whose extension is not among them never
    appears, whatever its content.  When directory listings hold plain names,
    that extension is the one of the reported path itself. *)
Theorem results_have_allowed_extension (this : Server) (env : Env) (query : string)
  (customLocations customFileTypes : option (list string))
  (sr : SearchSuccess) (r : MatchRecord) :
  searchFilesAdvanced this env query customLocations customFileTypes = Success sr ->
  In r (results sr) ->
  (exists dir itemName,
     fileAt env dir itemName
     /\ file r = Path.join dir itemName
     /\ type r = toLowerCase (Path.extname itemName)
     /\ In (toLowerCase (Path.extname itemName))
          (orDefault customFileTypes (this_emailFileTypes this)))
  /\ (plainEntries env ->
      type r = toLowerCase (Path.extname (file r))
      /\ In (toLowerCase (Path.extname (file r)))
           (orDefault customFileTypes (this_emailFileTypes this))).
Proof.
  intros H Hin.
  destruct (results_Found r H Hin)
    as [location [root [ds [itemName [_ [_ [_ HF]]]]]]].
  destruct HF as [_ [_ [Hf [_ [He [c [md [_ [_ ->]]]]]]]]].
  apply arrayIncludes_In in He. split.
  - exists (descend root ds), itemName. simpl. auto.
  - intros Hplain. destruct Hf as [items [Hdir Hitem]].
    pose proof (Hplain _ _ _ Hdir Hitem) as Hn. simpl in Hn.
    cbn [file type matchOf]. now rewrite extname_join by exact Hn.
Qed.

Lemma lookup_plainTree (segs : list string) (t t' : Tree) :
  plainTree t = true -> lookup t segs = Some t' -> plainTree t' = true.
Proof.
  revert t; induction segs as [|seg rest IH]; intros t Ht Hl; simpl in Hl.
  - now injection Hl as <-.
  - destruct t as [| |n entries]; try discriminate.
    simpl in Ht. induction entries as [|child es IHes]; [discriminate|].
    simpl in Ht. apply andb_true_iff in Ht as [Hc Hes].
    apply andb_true_iff in Hc as [_ Hc].
    destruct (treeName child =? seg); [now apply (IH child) | now apply IHes].
Qed.

(** The environments built from a tree of plain names list plain names. *)
Lemma plainEntries_treeEnv (workdir : string) (t : Tree) :
  plainTree t = true -> plainEntries (treeEnv workdir t).
Proof.
  intros Ht dir items item Hdir Hin. cbn [fs_readdir treeEnv] in Hdir.
  destruct (lookup t (segments dir)) as [t'|] eqn:Hl; [|discriminate].
  apply (lookup_plainTree _ _ Ht) in Hl.
  destruct t' as [| |n entries]; try discriminate.
  injection Hdir as <-. apply in_map_iff in Hin as [child [<- Hchild]].
  simpl in Hl. rewrite forallb_forall in Hl.
  apply Hl in Hchild. apply andb_true_iff in Hchild as [Hname _].
  destruct child; exact Hname.
Qed.

Example plainEntries_scenario : plainEntries (treeEnv "/" scenarioTree).
Proof. apply plainEntries_treeEnv. reflexivity. Qed.

Lemma results_have_allowed_extension_witness :
  (exists dir itemName,
     fileAt (treeEnv "/" scenarioTree) dir itemName
     /\ file scenarioMatch = Path.join dir itemName
     /\ type scenarioMatch = toLowerCase (Path.extname itemName)
     /\ In (toLowerCase (Path.extname itemName))
          (orDefault (Some [".txt"; ".md"]) (this_emailFileTypes server0)))
  /\ (plainEntries (treeEnv "/" scenarioTree) ->
      type scenarioMatch = toLowerCase (Path.extname (file scenarioMatch))
      /\ In (toLowerCase (Path.extname (file scenarioMatch)))
           (orDefault (Some [".txt"; ".md"]) (this_emailFileTypes server0))).
Proof.
  apply (@results_have_allowed_extension server0 (treeEnv "/" scenarioTree) "o w"
           (Some ["/data"]) (Some [".txt"; ".md"])
           (scenarioAnswer "o w") scenarioMatch).
  - vm_compute. reflexivity.
  - simpl. left. reflexivity.
Defined.

(** ** Locations and files that fail *)

Lemma rootFails_no_match (env : Env) (location query : string)
  (fileTypes : list string) :
  rootFails env location -> searchInLocation env location query fileTypes = [].
Proof.
  unfold rootFails, searchInLocation.
  destruct (resolve env location) as [root|msg]; [|reflexivity].
  intros [message H]. rewrite searchRecursive_unfold. simpl. now rewrite H.
Qed.

Lemma allMatches_app (env : Env) (query : string) (xs ys fileTypes : list string) :
  allMatches env query (app xs ys) fileTypes
  = app (allMatches env query xs fileTypes) (allMatches env query ys fileTypes).
Proof. apply flat_map_app. Qed.

(** C6. When one of the locations in force cannot be walked (it does not
    exist, or resolving or listing it throws), [searchFilesAdvanced] still
    returns a success; the answer lists the locations exactly as they were
    supplied, the failing one included; that location contributes no record;
    and the records and their count are those of the search over the other
    locations. *)
Theorem failing_location_is_skipped (this : Server) (env : Env) (query : string)
  (customLocations customFileTypes : option (list string))
  (before : list string) (bad : string) (after : list string) :
  orDefault customLocations (this_searchLocations this) = app before (bad :: after) ->
  rootFails env bad ->
  exists sr others,
    searchFilesAdvanced this env query customLocations customFileTypes = Success sr
    /\ searchLocations sr = app before (bad :: after)
    /\ searchInLocation env bad query
         (orDefault customFileTypes (this_emailFileTypes this)) = []
    /\ searchFilesAdvanced this env query (Some (app before after))
         customFileTypes = Success others
    /\ results sr = results others
    /\ totalResults sr = totalResults others.
Proof.
  intros Hlocs Hbad. rewrite !searchFilesAdvanced_eq. cbv zeta. rewrite Hlocs.
  eexists. eexists. split; [reflexivity|]. split; [reflexivity|].
  pose proof (@rootFails_no_match env bad query
                (orDefault customFileTypes (this_emailFileTypes this)) Hbad) as Hnil.
  split; [exact Hnil|]. split; [reflexivity|].
  cbn [results totalResults orDefault].
  assert (E : allMatches env query (app before (bad :: after))
                (orDefault customFileTypes (this_emailFileTypes this))
              = allMatches env query (app before after)
                  (orDefault customFileTypes (this_emailFileTypes this))).
  { rewrite !allMatches_app. f_equal. unfold allMatches at 1.
    cbn [flat_map]. now rewrite Hnil. }
  now rewrite E.
Qed.

Lemma failing_location_is_skipped_witness :
  exists sr others,
    searchFilesAdvanced server0 (treeEnv "/" scenarioTree) "world"
      (Some ["/missing"; "/data/a.txt"; "/data"]) (Some [".txt"; ".md"])
    = Success sr
    /\ searchLocations sr = app ["/missing"] ("/data/a.txt" :: ["/data"])
    /\ searchInLocation (treeEnv "/" scenarioTree) "/data/a.txt" "world"
         (orDefault (Some [".txt"; ".md"]) (this_emailFileTypes server0)) = []
    /\ searchFilesAdvanced server0 (treeEnv "/" scenarioTree) "world"
         (Some (app ["/missing"] ["/data"])) (Some [".txt"; ".md"]) = Success others
    /\ results sr = results others
    /\ totalResults sr = totalResults others.
Proof.
  apply (@failing_location_is_skipped server0 (treeEnv "/" scenarioTree) "world"
           (Some ["/missing"; "/data/a.txt"; "/data"]) (Some [".txt"; ".md"])
           ["/missing"] "/data/a.txt" ["/data"]).
  - reflexivity.
  - exists "ENOTDIR: not a directory". vm_compute. reflexivity.
Defined.

Example missing_location :
  searchFilesAdvanced server0 (treeEnv "/" scenarioTree) "world"
    (Some ["/missing"; "/data"]) (Some [".txt"; ".md"])
  = Success
      {| query := "world";
         searchLocations := ["/missing"; "/data"];
         totalResults := 1;
         results := [scenarioMatch] |}.
Proof. vm_compute. reflexivity. Qed.

(** A process whose working directory is gone cannot resolve a relative
    location; the absolute ones are still searched. *)
Example lost_working_directory :
  let env :=
    {| cwd := Throw "ENOENT: uv_cwd";
       fs_readdir := fs_readdir (treeEnv "/" scenarioTree);
       fs_readFile := fs_readFile (treeEnv "/" scenarioTree);
       fs_stat := fs_stat (treeEnv "/" scenarioTree) |} in
  rootFails env "."
  /\ searchFilesAdvanced server0 env "world" (Some ["."; "/data"]) None
     = Success
         {| query := "world";
            searchLocations := ["."; "/data"];
            totalResults := 1;
            results := [scenarioMatch] |}.
Proof. split; [exact I | vm_compute; reflexivity]. Qed.

Lemma readFile_cases (env : Env) (filePath : string) :
  readFile env filePath =
  match resolve env filePath with
  | Throw m => ReadErr m
  | Ok p =>
      match fs_readFile env p "utf-8" with
      | Ok content =>
          match fs_stat env p with
          | Ok st =>
              ReadOk content (mkMetadata (st_size st) (st_mtime st) p "auto-detected")
          | Throw m => ReadErr m
          end
      | Throw _ =>
          match fs_readFile env p "latin1" with
          | Ok content =>
              match fs_stat env p with
              | Ok st =>
                  ReadOk content
                    (mkMetadata (st_size st) (st_mtime st) p "auto-detected")
              | Throw m => ReadErr m
              end
          | Throw m => ReadErr m
          end
      end
  end.
Proof.
  unfold readFile, bind, catch.
  destruct (resolve env filePath) as [p|]; [|reflexivity].
  destruct (fs_readFile env p "utf-8"); [|destruct (fs_readFile env p "latin1")];
    try reflexivity; destruct (fs_stat env p); reflexivity.
Qed.

Lemma resolve_same (env1 env2 : Env) (p : string) :
  cwd env1 = cwd env2 -> resolve env1 p = resolve env2 p.
Proof. intros H. unfold resolve. now rewrite H. Qed.

Lemma readFile_same (env1 env2 : Env) (filePath : string) :
  cwd env1 = cwd env2 ->
  (forall p, fs_readFile env1 p "utf-8" = fs_readFile env2 p "utf-8") ->
  (forall p, fs_readFile env1 p "latin1" = fs_readFile env2 p "latin1") ->
  (forall p, fs_stat env1 p = fs_stat env2 p) ->
  readFile env1 filePath = readFile env2 filePath.
Proof.
  intros Hc Hu Hl Hs. rewrite !readFile_cases, (@resolve_same env1 env2 filePath Hc).
  destruct (resolve env2 filePath) as [p|]; [|reflexivity].
  now rewrite Hu, Hl, Hs.
Qed.


Example broken_file_skipped :
  searchFilesAdvanced server0 (treeEnv "/" brokenTree) "" (Some ["/data"]) None
  = Success
      {| query := "";
         searchLocations := ["/data"];
         totalResults := 1;
         results :=
           [{| file := "/data/good.txt";
               type := ".txt";
               size := 11;
               modified := 0;
               preview := [{| line := "hello world"; number := 1 |}] |}] |}.
Proof. vm_compute. reflexivity. Qed.

(** ** Repeating a search *)

Section SameAnswers.

Variables env1 env2 : Env.
Hypothesis same : sameAnswers env1 env2.

Lemma sameAnswers_readFile (filePath : string) :
  readFile env1 filePath = readFile env2 filePath.
Proof. destruct same as [Hc [_ [Hu [Hl Hs]]]]. now apply readFile_same. Qed.

Lemma sameAnswers_searchRecursive (query : string) (fileTypes : list string)
  (maxDepth fuel : nat) (dir : string) (results : list MatchRecord)
  (currentDepth : nat) :
  searchRecursive_fuel fuel env1 dir query fileTypes results currentDepth maxDepth
  = searchRecursive_fuel fuel env2 dir query fileTypes results currentDepth maxDepth.
Proof.
  revert dir results currentDepth.
  induction fuel as [|fuel IH]; intros dir results d; [reflexivity|].
  cbn [searchRecursive_fuel].
  destruct (maxDepth <? d)%nat; [reflexivity|].
  destruct same as [_ [Hd _]]. rewrite Hd.
  destruct (fs_readdir env2 dir) as [items|]; [|reflexivity].
  apply fold_left_ext_all. intros acc item.
  rewrite IH, sameAnswers_readFile. reflexivity.
Qed.

Lemma sameAnswers_searchInLocation (location query : string)
  (fileTypes : list string) :
  searchInLocation env1 location query fileTypes
  = searchInLocation env2 location query fileTypes.
Proof.
  unfold searchInLocation, searchRecursive.
  destruct same as [Hc _]. rewrite (@resolve_same env1 env2 location Hc).
  destruct (resolve env2 location); [|reflexivity].
  apply sameAnswers_searchRecursive.
Qed.

Lemma sameAnswers_search (this : Server) (query : string)
  (customLocations customFileTypes : option (list string)) :
  searchFilesAdvanced this env1 query customLocations customFileTypes
  = searchFilesAdvanced this env2 query customLocations customFileTypes.
Proof.
  rewrite !searchFilesAdvanced_eq. cbv zeta. unfold allMatches.
  erewrite flat_map_ext; [reflexivity|].
  intros location. apply sameAnswers_searchInLocation.
Qed.

End SameAnswers.



(** ** Enumeration order *)

(** The accumulator only grows at its end: a call appends what it finds. *)
Lemma fold_left_appends {A B : Type} (step : list B -> A -> list B) (items : list A) :
  (forall acc item, step acc item = app acc (step [] item)) ->
  forall acc, fold_left step items acc = app acc (flat_map (step []) items).
Proof.
  intros H. induction items as [|item items IH]; intros acc; simpl.
  - now rewrite app_nil_r.
  - now rewrite IH, (H acc item), app_assoc.
Qed.

Lemma visitItem_appends (recurse : string -> list MatchRecord -> list MatchRecord)
  (env : Env) (dir query : string) (fileTypes : list string) :
  (forall p acc, recurse p acc = app acc (recurse p [])) ->
  forall acc item,
    visitItem recurse env dir query fileTypes acc item
    = app acc (visitItem recurse env dir query fileTypes [] item).
Proof.
  intros H acc item. unfold visitItem.
  destruct (skipped (name item)); [now rewrite app_nil_r|].
  destruct (isDirectory item); [apply H|].
  destruct (isFile item); [|now rewrite app_nil_r].
  destruct (arrayIncludes fileTypes _); [|now rewrite app_nil_r].
  destruct (readFile env _); [|now rewrite app_nil_r].
  destruct (isMatch _ _); [reflexivity | now rewrite app_nil_r].
Qed.

Lemma searchRecursive_appends (env : Env) (query : string) (fileTypes : list string)
  (maxDepth : nat) (dir : string) (results : list MatchRecord) (currentDepth : nat) :
  searchRecursive env dir query fileTypes results currentDepth maxDepth
  = app results
      (searchRecursive env dir query fileTypes [] currentDepth maxDepth).
Proof.
  remember (S maxDepth - currentDepth) as k eqn:Hk.
  assert (Hle : S maxDepth - currentDepth <= k) by lia. clear Hk.
  revert dir results currentDepth Hle.
  induction k as [|k IH]; intros dir results d Hle;
    rewrite !(searchRecursive_unfold env dir query fileTypes _ d maxDepth).
  - replace (maxDepth <? d)%nat with true by (symmetry; apply Nat.ltb_lt; lia).
    now rewrite app_nil_r.
  - destruct (maxDepth <? d)%nat eqn:Hd; [now rewrite app_nil_r|].
    apply Nat.ltb_ge in Hd.
    destruct (fs_readdir env dir) as [items|]; [|now rewrite app_nil_r].
    rewrite !(fold_left_appends _ items);
      try (apply visitItem_appends; intros p acc; apply IH; lia).
    reflexivity.
Qed.

Lemma Permutation_flat_map_both {A B : Type} (f g : A -> list B) (xs ys : list A) :
  Permutation xs ys ->
  (forall x, Permutation (f x) (g x)) ->
  Permutation (flat_map f xs) (flat_map g ys).
Proof.
  intros Hp Hfg. transitivity (flat_map f ys).
  - now apply Permutation_flat_map.
  - clear Hp. induction ys as [|y ys IH]; simpl; [constructor|].
    now apply Permutation_app.
Qed.

Section SameTree.

Variables env1 env2 : Env.
Hypothesis same : sameTree env1 env2.

Lemma sameTree_readFile (filePath : string) :
  readFile env1 filePath = readFile env2 filePath.
Proof. destruct same as [Hc [_ [Hu [Hl Hs]]]]. now apply readFile_same. Qed.

Lemma sameTree_searchRecursive (query : string) (fileTypes : list string)
  (maxDepth : nat) (dir : string) (currentDepth : nat) :
  Permutation
    (searchRecursive env1 dir query fileTypes [] currentDepth maxDepth)
    (searchRecursive env2 dir query fileTypes [] currentDepth maxDepth).
Proof.
  remember (S maxDepth - currentDepth) as k eqn:Hk.
  assert (Hle : S maxDepth - currentDepth <= k) by lia. clear Hk.
  revert dir currentDepth Hle.
  induction k as [|k IH]; intros dir d Hle; rewrite !searchRecursive_unfold.
  - replace (maxDepth <? d)%nat with true by (symmetry; apply Nat.ltb_lt; lia).
    constructor.
  - destruct (maxDepth <? d)%nat eqn:Hd; [constructor|].
    apply Nat.ltb_ge in Hd.
    destruct same as [_ [Hdir _]]. specialize (Hdir dir).
    destruct (fs_readdir env1 dir) as [items1|], (fs_readdir env2 dir) as [items2|];
      try contradiction; [|constructor].
    rewrite !fold_left_appends;
      try (apply visitItem_appends; intros p acc; apply searchRecursive_appends).
    simpl. apply Permutation_flat_map_both; [exact Hdir|].
    intros item. unfold visitItem.
    destruct (skipped (name item)); [constructor|].
    destruct (isDirectory item); [apply IH; lia|].
    rewrite sameTree_readFile. reflexivity.
Qed.

(** Whatever the order in which directories are enumerated, the matches
    are the same up to their order. *)
Lemma sameTree_allMatches (query : string) (searchLocations fileTypes : list string) :
  Permutation (allMatches env1 query searchLocations fileTypes)
              (allMatches env2 query searchLocations fileTypes).
Proof.
  unfold allMatches. apply Permutation_flat_map_both; [reflexivity|].
  intros location. unfold searchInLocation.
  destruct same as [Hc _]. rewrite (@resolve_same env1 env2 location Hc).
  destruct (resolve env2 location); [|constructor].
  apply sameTree_searchRecursive.
Qed.

(** When at most 50 files match, the answers hold the same records (the
    cap of 50 keeps whichever matches come first). *)
Lemma sameTree_results (this : Server) (query : string)
  (customLocations customFileTypes : option (list string))
  (sr1 sr2 : SearchSuccess) :
  searchFilesAdvanced this env1 query customLocations customFileTypes = Success sr1 ->
  searchFilesAdvanced this env2 query customLocations customFileTypes = Success sr2 ->
  totalResults sr1 = totalResults sr2
  /\ (totalResults sr1 <= 50 -> Permutation (results sr1) (results sr2)).
Proof.
  intros H1 H2.
  destruct (searchFilesAdvanced_fields H1) as [_ [Hr1 Ht1]].
  destruct (searchFilesAdvanced_fields H2) as [_ [Hr2 Ht2]].
  pose proof (sameTree_allMatches query
                (orDefault customLocations (this_searchLocations this))
                (orDefault customFileTypes (this_emailFileTypes this))) as Hp.
  pose proof (Permutation_length Hp) as Hlen.
  split; [congruence|]. intros Hle.
  rewrite Hr1, Hr2, !firstn_all2 by lia. exact Hp.
Qed.

End SameTree.

(** ** The dispatcher *)

Lemma selectFrom_bounds (cs : list Dispatch.Clause) (v : string) (index k : nat) :
  Dispatch.selectFrom index cs v = Some k ->
  index <= k < index + List.length cs
  /\ Dispatch.label (nth (k - index) cs Dispatch.defaultClause) = v
  /\ forall j, j < k - index ->
       Dispatch.label (nth j cs Dispatch.defaultClause) <> v.
Proof.
  revert index; induction cs as [|c cs IH]; intros index; simpl; [discriminate|].
  destruct (Dispatch.label c =? v) eqn:E.
  - intros H. injection H as <-. apply String.eqb_eq in E.
    rewrite Nat.sub_diag. repeat split; [lia | lia | exact E | intros j Hj; lia].
  - intros H. apply IH in H as [Hk [Hl Hfirst]]. apply String.eqb_neq in E.
    replace (k - index) with (S (k - S index)) by lia.
    repeat split; [lia | lia | exact Hl |].
    intros [|j] Hj; [exact E | apply Hfirst; lia].
Qed.

(** C9. The [switch] of [executeTool] has two clauses labelled
    [search_outlook_emails], the sixth and the eighth.  On every platform and
    for every [args] the name is dispatched to the sixth, which calls
    [searchOutlookEmails]; the eighth, whose body would call
    [searchMacOSOutlook] on darwin, is selected for no tool name, and
    [executeTool] never calls [searchMacOSOutlook]. *)
Theorem duplicate_case_is_unreachable :
  Dispatch.label (nth 5 Dispatch.clauses Dispatch.defaultClause)
  = "search_outlook_emails"
  /\ Dispatch.label (nth 7 Dispatch.clauses Dispatch.defaultClause)
     = "search_outlook_emails"
  /\ (forall platform args,
        Dispatch.selectClause "search_outlook_emails" = Some 5
        /\ Dispatch.executeTool platform "search_outlook_emails" args
           = Dispatch.call_searchOutlookEmails (Dispatch.contactName args))
  /\ (forall args,
        Dispatch.body (nth 7 Dispatch.clauses Dispatch.defaultClause) "darwin" args
        = Dispatch.call_searchMacOSOutlook (Dispatch.contactName args))
  /\ (forall toolName, Dispatch.selectClause toolName <> Some 7)
  /\ (forall platform toolName args c,
        Dispatch.executeTool platform toolName args
        <> Dispatch.call_searchMacOSOutlook c).
Proof.
  assert (Hno : forall toolName, Dispatch.selectClause toolName <> Some 7).
  { intros toolName H. apply selectFrom_bounds in H as [_ [Hl Hfirst]].
    simpl in Hl. apply (Hfirst 5); [simpl; lia | exact Hl]. }
  repeat split; try reflexivity; [exact Hno|].
  intros platform toolName args c. unfold Dispatch.executeTool.
  destruct (Dispatch.selectClause toolName) as [k|] eqn:Hk; [|discriminate].
  pose proof (Hno toolName) as H7.
  pose proof Hk as Hsel.
  apply selectFrom_bounds in Hk as [[_ Hlt] _]. simpl in Hlt.
  do 7 (destruct k as [|k]; [discriminate|]).
  destruct k; [congruence | lia].
Qed.

(** ** The empty query *)

Lemma mapi_from_lines (xs : list string) (i : nat) :
  map line (mapi_from (fun l index => {| line := trim l; number := index + 1 |}) i xs)
  = map trim xs.
Proof.
  revert i; induction xs as [|x xs IH]; intros i; simpl;
    [reflexivity | now rewrite IH].
Qed.

Lemma numberedLines_lines (content : string) :
  map line (numberedLines content) = map trim (split LF content).
Proof. apply mapi_from_lines. Qed.


Example empty_query_scenario :
  searchFilesAdvanced server0 (treeEnv "/" scenarioTree) ""
    (Some ["/data"]) (Some [".txt"; ".md"])
  = Success
      {| query := "";
         searchLocations := ["/data"];
         totalResults := 2;
         results :=
           [scenarioMatch;
            {| file := "/data/sub/b.md";
               type := ".md";
               size := 16;
               modified := 0;
               preview := [{| line := "nothing relevant"; number := 1 |}] |}] |}.
Proof. vm_compute. reflexivity. Qed.

(** * Further properties *)

Unset Implicit Arguments.

(** ** More on strings *)

Lemma append_assoc (a b c : string) : (a ++ b) ++ c = a ++ b ++ c.
Proof. induction a as [|x a IH]; simpl; [reflexivity | now rewrite IH]. Qed.

Lemma append_nil_r (a : string) : a ++ "" = a.
Proof. induction a as [|x a IH]; simpl; [reflexivity | now rewrite IH]. Qed.

(** Two ways of cutting one string: one cut lies before the other. *)
Lemma append_split (a b c d : string) :
  a ++ b = c ++ d ->
  (exists m, c = a ++ m /\ b = m ++ d) \/ (exists m, a = c ++ m /\ d = m ++ b).
Proof.
  revert c; induction a as [|x a IH]; intros c H; simpl in H.
  - left. exists c. auto.
  - destruct c as [|y c]; simpl in H.
    + right. exists (String x a). auto.
    + injection H as -> H. destruct (IH c H) as [[m [-> ->]] | [m [-> ->]]].
      * left. exists m. auto.
      * right. exists m. auto.
Qed.

Lemma lacks_app (c : ascii) (a b : string) :
  lacks c (a ++ b) = lacks c a && lacks c b.
Proof.
  induction a as [|x a IH]; simpl; [reflexivity | now rewrite IH, andb_assoc].
Qed.

Lemma occursIn_app_l (k a b : string) : occursIn k a -> occursIn k (a ++ b).
Proof.
  intros [pre [post ->]]. exists pre, (post ++ b). now rewrite !append_assoc.
Qed.

Lemma occursIn_app_r (k a b : string) : occursIn k b -> occursIn k (a ++ b).
Proof.
  intros [pre [post ->]]. exists (a ++ pre), post. now rewrite !append_assoc.
Qed.

Lemma occursIn_trans (k m s : string) : occursIn k m -> occursIn m s -> occursIn k s.
Proof.
  intros [p1 [q1 ->]] [p2 [q2 ->]]. exists (p2 ++ p1), (q1 ++ q2).
  now rewrite !append_assoc.
Qed.

(** A string without the character [c] that occurs in [a ++ c ++ b] occurs
    in [a] or in [b]. *)
Lemma occursIn_sep (c : ascii) (k a b : string) :
  lacks c k = true -> k <> "" ->
  (occursIn k (a ++ String c b) <-> occursIn k a \/ occursIn k b).
Proof.
  intros Hk Hne. split.
  - intros [pre [post H]].
    apply append_split in H as [[m [-> H]] | [m [-> H]]].
    + destruct m as [|x m]; simpl in H.
      * destruct k as [|y k]; [congruence|]. simpl in H. injection H as <- _.
        simpl in Hk. now rewrite Ascii.eqb_refl in Hk.
      * injection H as _ ->. right. exists m, post. reflexivity.
    + symmetry in H. apply append_split in H as [[m2 [Hk2 H]] | [m2 [-> ->]]].
      * destruct m2 as [|x m2]; simpl in H.
        -- rewrite append_nil_r in Hk2. subst m. left. exists pre, "".
           now rewrite append_nil_r.
        -- injection H as <- _. subst k. rewrite lacks_app in Hk. simpl in Hk.
           rewrite Ascii.eqb_refl in Hk. simpl in Hk.
           now rewrite andb_false_r in Hk.
      * left. exists pre, m2. reflexivity.
  - intros [H | H]; [now apply occursIn_app_l|].
    apply occursIn_app_r. destruct H as [pre [post ->]].
    exists (String c pre), post. reflexivity.
Qed.

Lemma includes_nil (k : string) : k <> "" -> includes "" k = false.
Proof. destruct k; [congruence | reflexivity]. Qed.

Lemma includes_iff (s t k : string) :
  (occursIn k s <-> occursIn k t) -> includes s k = includes t k.
Proof.
  intros H. destruct (includes s k) eqn:E1, (includes t k) eqn:E2; try reflexivity.
  - apply includes_spec, H, includes_spec in E1. congruence.
  - apply includes_spec, H, includes_spec in E2. congruence.
Qed.

Lemma joinWith_cons2 (sep x y : string) (xs : list string) :
  joinWith sep (x :: y :: xs) = x ++ sep ++ joinWith sep (y :: xs).
Proof. reflexivity. Qed.

Lemma occursIn_joinWith (c : ascii) (k : string) (xs : list string) :
  lacks c k = true -> k <> "" ->
  (occursIn k (joinWith (String c "") xs) <-> exists x, In x xs /\ occursIn k x).
Proof.
  intros Hk Hne. induction xs as [|x xs IH].
  - split; [|intros [x [[] _]]]. intros [pre [post H]]. simpl in H.
    symmetry in H. apply append_eq_empty in H as [_ H].
    apply append_eq_empty in H as [H _]. contradiction.
  - destruct xs as [|y xs].
    + simpl. split; [eauto | intros [z [[<- | []] H]]; exact H].
    + rewrite joinWith_cons2.
      change (x ++ String c "" ++ joinWith (String c "") (y :: xs))
        with (x ++ String c (joinWith (String c "") (y :: xs))).
      rewrite (@occursIn_sep c k _ _ Hk Hne), IH. split.
      * intros [H | [z [Hz H]]]; [exists x; simpl; auto | exists z; simpl; auto].
      * intros [z [[<- | Hz] H]]; [now left | right; eauto].
Qed.

(** [xs.join(c).includes(k)] looks into each element on its own when [k] is
    not empty and holds no [c]. *)
Lemma includes_joinWith (c : ascii) (k : string) (xs : list string) :
  lacks c k = true -> k <> "" ->
  includes (joinWith (String c "") xs) k = existsb (fun x => includes x k) xs.
Proof.
  intros Hk Hne. apply eq_true_iff_eq.
  rewrite includes_spec, (@occursIn_joinWith c k xs Hk Hne), existsb_exists.
  split; intros [x [Hx H]]; exists x; split; auto; now apply includes_spec.
Qed.

Lemma joinWith_split (sep : ascii) (s : string) :
  joinWith (String sep "") (split sep s) = s.
Proof.
  induction s as [|c s IH]; [reflexivity|]. simpl.
  destruct (Ascii.eqb c sep) eqn:E.
  - apply Ascii.eqb_eq in E. subst c.
    destruct (split sep s) as [|p ps] eqn:Hs; [now apply split_nonempty in Hs|].
    change (joinWith (String sep "") ("" :: p :: ps))
      with ("" ++ String sep (joinWith (String sep "") (p :: ps))).
    now rewrite IH.
  - destruct (split sep s) as [|p ps] eqn:Hs; [now apply split_nonempty in Hs|].
    destruct ps as [|p2 ps]; simpl in *; now rewrite <- IH.
Qed.

Lemma split_pieces_lack (sep : ascii) (s : string) :
  Forall (fun x => lacks sep x = true) (split sep s).
Proof.
  induction s as [|c s IH]; simpl; [repeat constructor|].
  destruct (Ascii.eqb c sep) eqn:E; [now constructor|].
  destruct (split sep s) as [|piece rest]; [repeat constructor; simpl; now rewrite E|].
  inversion IH; subst. constructor; [simpl; now rewrite E | assumption].
Qed.

Lemma split_piece_occurs (sep : ascii) (s x : string) :
  In x (split sep s) -> occursIn x s.
Proof.
  intros Hin. rewrite <- (joinWith_split sep s).
  induction (split sep s) as [|p ps IH]; [destruct Hin|].
  destruct ps as [|p2 ps].
  - destruct Hin as [<- | []]. exists "", "". simpl. now rewrite append_nil_r.
  - change (joinWith (String sep "") (p :: p2 :: ps))
      with (p ++ String sep (joinWith (String sep "") (p2 :: ps))).
    destruct Hin as [<- | Hin].
    + apply occursIn_app_l. exists "", "". simpl. now rewrite append_nil_r.
    + apply occursIn_app_r. destruct (IH Hin) as [pre [post ->]].
      exists (String sep pre), post. reflexivity.
Qed.

(** ** Trimming and letter case *)

Lemma lowerChar_white (c : ascii) : isWhiteSpace (lowerChar c) = isWhiteSpace c.
Proof. destruct c as [[] [] [] [] [] [] [] []]; reflexivity. Qed.

Lemma lowerChar_LF (c : ascii) : Ascii.eqb (lowerChar c) LF = Ascii.eqb c LF.
Proof. destruct c as [[] [] [] [] [] [] [] []]; reflexivity. Qed.

Lemma trimStart_sub (x : string) : exists a, x = a ++ trimStart x.
Proof.
  induction x as [|c x [a IH]]; [exists ""; reflexivity|]. simpl.
  destruct (isWhiteSpace c); [|exists ""; reflexivity].
  exists (String c a). simpl. now rewrite <- IH.
Qed.

Lemma trimEnd_sub (x : string) : exists b, x = trimEnd x ++ b.
Proof.
  induction x as [|c x [b IH]]; [exists ""; reflexivity|]. simpl.
  destruct (trimEnd x) as [|d t] eqn:E.
  - destruct (isWhiteSpace c); [exists (String c x) | exists x]; reflexivity.
  - exists b. simpl. now rewrite IH at 1.
Qed.

Lemma trim_occurs (x : string) : occursIn (trim x) x.
Proof.
  unfold trim. destruct (trimStart_sub x) as [a Ha].
  destruct (trimEnd_sub (trimStart x)) as [b Hb].
  exists a, b. now rewrite <- Hb.
Qed.

Lemma lacks_occursIn (c : ascii) (k s : string) :
  occursIn k s -> lacks c s = true -> lacks c k = true.
Proof.
  intros [pre [post ->]]. rewrite !lacks_app, !andb_true_iff. tauto.
Qed.

Lemma lacks_trim (c : ascii) (x : string) : lacks c x = true -> lacks c (trim x) = true.
Proof. apply lacks_occursIn, trim_occurs. Qed.

Lemma trimStart_first (x : string) :
  trimStart x = "" \/ startsNonWhite (trimStart x) = true.
Proof.
  induction x as [|c x IH]; [now left|]. simpl.
  destruct (isWhiteSpace c) eqn:E; [exact IH|]. right. simpl. now rewrite E.
Qed.

Lemma trimEnd_keeps_first (y : string) :
  startsNonWhite y = true -> startsNonWhite (trimEnd y) = true.
Proof.
  destruct y as [|c y]; [discriminate|]. simpl. intros H.
  destruct (trimEnd y); simpl; [|exact H].
  apply negb_true_iff in H. rewrite H. simpl. now rewrite H.
Qed.

Lemma trimStart_id (y : string) : startsNonWhite y = true -> trimStart y = y.
Proof.
  destruct y as [|c y]; [discriminate|]. simpl. intros H.
  apply negb_true_iff in H. now rewrite H.
Qed.

Lemma trimEnd_idem (y : string) : trimEnd (trimEnd y) = trimEnd y.
Proof.
  induction y as [|c y IH]; [reflexivity|]. simpl.
  destruct (trimEnd y) as [|d t] eqn:E.
  - destruct (isWhiteSpace c) eqn:W; [reflexivity|]. simpl. now rewrite W.
  - simpl in *. now rewrite IH.
Qed.

Lemma endsNonWhite_trimEnd (y : string) :
  trimEnd y <> "" -> endsNonWhite (trimEnd y) = true.
Proof.
  induction y as [|c y IH]; [intros H; exfalso; now apply H|]. simpl.
  destruct (trimEnd y) as [|d t] eqn:E.
  - destruct (isWhiteSpace c) eqn:W; [intros H; exfalso; now apply H|].
    intros _. simpl. now rewrite W.
  - intros _. change (endsNonWhite (String c (String d t)))
      with (endsNonWhite (String d t)).
    apply IH. discriminate.
Qed.

Lemma trim_idem (x : string) : trim (trim x) = trim x.
Proof.
  unfold trim. destruct (trimStart_first x) as [E | E].
  - rewrite E. reflexivity.
  - rewrite (trimStart_id _ (trimEnd_keeps_first _ E)). apply trimEnd_idem.
Qed.

(** A string that trimming leaves alone starts and ends with characters that
    are not white space, unless it is empty. *)
Lemma trim_fixed (q : string) :
  trim q = q -> q <> "" -> startsNonWhite q = true /\ endsNonWhite q = true.
Proof.
  unfold trim. intros H Hne. destruct (trimStart_first q) as [E | E].
  - rewrite E in H. simpl in H. congruence.
  - split.
    + rewrite <- H. now apply trimEnd_keeps_first.
    + rewrite <- H. apply endsNonWhite_trimEnd. now rewrite H.
Qed.

Lemma startsWith_nil (k : string) : k <> "" -> startsWith "" k = false.
Proof. destruct k; [congruence | reflexivity]. Qed.

Lemma includes_trimStart (x k : string) :
  startsNonWhite k = true -> includes x k = true -> includes (trimStart x) k = true.
Proof.
  intros Hk. induction x as [|c x IH]; [auto|]. simpl trimStart.
  destruct (isWhiteSpace c) eqn:W; [|auto].
  cbn [includes]. intros H. apply orb_true_iff in H as [H | H]; [|auto].
  destruct k as [|b k]; [discriminate|]. simpl in H, Hk.
  apply andb_true_iff in H as [H _]. apply Ascii.eqb_eq in H. subst b.
  now rewrite W in Hk.
Qed.

Lemma startsWith_trimEnd (x k : string) :
  endsNonWhite k = true -> startsWith x k = true -> startsWith (trimEnd x) k = true.
Proof.
  revert x; induction k as [|b k IH]; intros x Hk H; [discriminate|].
  destruct x as [|c x]; [discriminate|]. simpl in H.
  apply andb_true_iff in H as [Hc Hx]. apply Ascii.eqb_eq in Hc. subst b.
  destruct k as [|b2 k].
  - simpl in Hk. apply negb_true_iff in Hk. simpl. rewrite Hk.
    destruct (trimEnd x); simpl; now rewrite Ascii.eqb_refl.
  - assert (Hk' : endsNonWhite (String b2 k) = true) by exact Hk.
    specialize (IH x Hk' Hx). simpl trimEnd.
    destruct (trimEnd x) as [|d t] eqn:E; [discriminate|].
    simpl in IH |- *. rewrite Ascii.eqb_refl. exact IH.
Qed.

Lemma includes_cons (c : ascii) (x k : string) :
  includes x k = true -> includes (String c x) k = true.
Proof. intros H. cbn [includes]. rewrite H. apply orb_true_r. Qed.

Lemma endsNonWhite_nonempty (k : string) : endsNonWhite k = true -> k <> "".
Proof. destruct k; [discriminate | discriminate]. Qed.

Lemma includes_trimEnd (x k : string) :
  endsNonWhite k = true -> includes x k = true -> includes (trimEnd x) k = true.
Proof.
  intros Hk. pose proof (endsNonWhite_nonempty _ Hk) as Hne.
  induction x as [|c x IH]; [auto|].
  intros H. cbn [includes] in H. apply orb_true_iff in H as [H | H].
  - apply (startsWith_trimEnd _ _ Hk) in H.
    destruct (trimEnd (String c x)); cbn [includes]; now rewrite H.
  - specialize (IH H). simpl trimEnd.
    destruct (trimEnd x) as [|d t] eqn:E.
    + rewrite (includes_nil k Hne) in IH. discriminate.
    + now apply includes_cons.
Qed.

Lemma includes_trim (x k : string) :
  startsNonWhite k = true -> endsNonWhite k = true ->
  includes x k = true -> includes (trim x) k = true.
Proof.
  intros Hs He H. unfold trim. now apply includes_trimEnd, includes_trimStart.
Qed.

Lemma toLowerCase_trimStart (x : string) :
  toLowerCase (trimStart x) = trimStart (toLowerCase x).
Proof.
  induction x as [|c x IH]; [reflexivity|]. simpl.
  rewrite lowerChar_white. destruct (isWhiteSpace c); [exact IH | reflexivity].
Qed.

Lemma toLowerCase_trimEnd (x : string) :
  toLowerCase (trimEnd x) = trimEnd (toLowerCase x).
Proof.
  induction x as [|c x IH]; [reflexivity|]. simpl.
  rewrite <- IH, lowerChar_white.
  destruct (trimEnd x); simpl; [destruct (isWhiteSpace c)|]; reflexivity.
Qed.

Lemma toLowerCase_trim (x : string) : toLowerCase (trim x) = trim (toLowerCase x).
Proof. unfold trim. now rewrite toLowerCase_trimEnd, toLowerCase_trimStart. Qed.

Lemma split_toLowerCase (s : string) :
  split LF (toLowerCase s) = map toLowerCase (split LF s).
Proof.
  induction s as [|c s IH]; [reflexivity|]. simpl.
  rewrite lowerChar_LF, IH. destruct (Ascii.eqb c LF); [reflexivity|].
  destruct (split LF s); reflexivity.
Qed.

Lemma lacks_LF_toLowerCase (k : string) : lacks LF (toLowerCase k) = lacks LF k.
Proof.
  induction k as [|c k IH]; [reflexivity|]. simpl. now rewrite lowerChar_LF, IH.
Qed.

Lemma startsNonWhite_toLowerCase (k : string) :
  startsNonWhite (toLowerCase k) = startsNonWhite k.
Proof. destruct k; [reflexivity|]. simpl. now rewrite lowerChar_white. Qed.

Lemma endsNonWhite_toLowerCase (k : string) :
  endsNonWhite (toLowerCase k) = endsNonWhite k.
Proof.
  induction k as [|c k IH]; [reflexivity|]. simpl.
  destruct k; simpl in *; [now rewrite lowerChar_white | exact IH].
Qed.

(** ** Previews and matches *)

Lemma occursIn_toLowerCase (k s : string) :
  occursIn k s -> occursIn (toLowerCase k) (toLowerCase s).
Proof.
  intros [pre [post ->]]. exists (toLowerCase pre), (toLowerCase post).
  now rewrite !toLowerCase_app.
Qed.

Lemma toLowerCase_nonempty (q : string) : q <> "" -> toLowerCase q <> "".
Proof. destruct q; [congruence | discriminate]. Qed.

Lemma firstn_nonempty {A : Type} (n : nat) (xs : list A) :
  xs <> [] -> firstn (S n) xs <> [].
Proof. destruct xs; [congruence | discriminate]. Qed.

(** A preview entry is evidence of a match, whatever the query. *)
Lemma preview_entry_matches (content query : string) (p : PreviewLine) :
  In p (getContentPreview content query) -> isMatch content query = true.
Proof.
  rewrite getContentPreview_eq. intros Hp.
  apply firstn_In, filter_In in Hp as [Hin Hm].
  apply numberedLines_In in Hin as [k [l [Hk ->]]]. simpl in Hm.
  apply nth_error_In in Hk.
  unfold isMatch in *. apply includes_spec. apply includes_spec in Hm.
  apply (occursIn_trans _ _ _ Hm), occursIn_toLowerCase.
  apply (occursIn_trans _ l); [apply trim_occurs | now apply (split_piece_occurs LF)].
Qed.

Lemma match_has_preview (content query : string) :
  query <> "" -> lacks LF query = true -> trim query = query ->
  isMatch content query = true -> getContentPreview content query <> [].
Proof.
  intros Hne Hlf Htrim.
  - intros Hm. destruct (trim_fixed query Htrim Hne) as [Hs He].
    unfold isMatch in Hm.
    rewrite <- (joinWith_split LF (toLowerCase content)) in Hm.
    rewrite includes_joinWith in Hm;
      [|now rewrite lacks_LF_toLowerCase | now apply toLowerCase_nonempty].
    apply existsb_exists in Hm as [l' [Hl' Hinc]].
    rewrite split_toLowerCase in Hl'. apply in_map_iff in Hl' as [l [<- Hl]].
    apply includes_trim in Hinc;
      [|now rewrite startsNonWhite_toLowerCase | now rewrite endsNonWhite_toLowerCase].
    rewrite <- toLowerCase_trim in Hinc.
    apply In_nth_error in Hl as [k Hk].
    rewrite getContentPreview_eq. apply firstn_nonempty.
    intros Hnil.
    assert (Hin : In {| line := trim l; number := k + 1 |}
                    (filter (fun p => isMatch (line p) query) (numberedLines content))).
    { apply filter_In. split; [apply numberedLines_In; eauto | exact Hinc]. }
    rewrite Hnil in Hin. destruct Hin.
Qed.

(** X1. For a query that is not empty, holds no line feed and has no white
    space at either end, a content matches exactly when its preview is not
    empty. *)
Theorem preview_nonempty_iff_match (content query : string) :
  query <> "" -> lacks LF query = true -> trim query = query ->
  (isMatch content query = true <-> getContentPreview content query <> []).
Proof.
  intros Hne Hlf Htrim. split; [now apply match_has_preview|].
  intros Hp. destruct (getContentPreview content query) as [|p ps] eqn:E;
    [congruence|].
  apply (preview_entry_matches content query p). rewrite E. now left.
Qed.

Lemma preview_nonempty_iff_match_witness :
  isMatch "Hello World" "world" = true
  <-> getContentPreview "Hello World" "world" <> [].
Proof.
  apply (preview_nonempty_iff_match "Hello World" "world");
    [discriminate | reflexivity | reflexivity].
Defined.

(** X2. For such a query every record that [searchFilesAdvanced] returns
    shows at least one line of its file in [preview]. *)
Theorem results_show_a_line (this : Server) (env : Env) (query : string)
  (customLocations customFileTypes : option (list string))
  (sr : SearchSuccess) (r : MatchRecord) :
  query <> "" -> lacks LF query = true -> trim query = query ->
  searchFilesAdvanced this env query customLocations customFileTypes = Success sr ->
  In r (results sr) ->
  preview r <> []
  /\ forall p, In p (preview r) -> containsIgnoreCase (line p) query.
Proof.
  intros Hne Hlf Htrim H Hin.
  destruct (results_Found r H Hin)
    as [location [root [ds [itemName [_ [_ [_ HF]]]]]]].
  destruct HF as [_ [_ [_ [_ [_ [c [md [_ [Hm ->]]]]]]]]]. simpl. split.
  - now apply match_has_preview.
  - intros p Hp. rewrite getContentPreview_eq in Hp.
    apply firstn_In, filter_In in Hp as [_ Hp]. now apply isMatch_spec.
Qed.

Lemma results_show_a_line_witness :
  preview scenarioMatch <> []
  /\ forall p, In p (preview scenarioMatch) -> containsIgnoreCase (line p) "world".
Proof.
  apply (results_show_a_line server0 (treeEnv "/" scenarioTree) "world"
           (Some ["/data"]) (Some [".txt"; ".md"])
           (scenarioAnswer "world") scenarioMatch);
    [discriminate | reflexivity | reflexivity | vm_compute; reflexivity
    | simpl; left; reflexivity].
Defined.

(** ** Pattern analysis by keywords *)

Lemma mentions_existsb (emailContents : list EmailContent) (k : string) :
  existsb (fun item => isMatch (ec_content item) k) emailContents = true
  <-> mentions emailContents k.
Proof.
  unfold mentions. rewrite existsb_exists.
  split; intros [item [Hin H]]; exists item; split; auto; now apply isMatch_spec.
Qed.

(** A lower-case keyword without a space is found in the joined text exactly
    when one file holds it: a keyword is never made up across two files. *)
Lemma allContent_includes (emailContents : list EmailContent) (k : string) :
  k <> "" -> lacks " " k = true -> toLowerCase k = k ->
  includes
    (joinWith " " (map (fun item => toLowerCase (ec_content item)) emailContents)) k
  = existsb (fun item => isMatch (ec_content item) k) emailContents.
Proof.
  intros Hne Hsp Hlow.
  rewrite (includes_joinWith " " k _ Hsp Hne). unfold isMatch. rewrite Hlow.
  induction emailContents as [|item rest IH]; simpl; [reflexivity | now rewrite IH].
Qed.

Ltac per_file :=
  rewrite ?allContent_includes by (discriminate || reflexivity).

(** X3. [commonTopics] holds, in the order of the fixed list and without
    repetition, exactly the topics that at least one analysed file contains,
    letter case ignored; a topic is never found across two files. *)
Theorem commonTopics_spec (ext : Externals) (emailContents : list EmailContent)
  (contactName : string) :
  commonTopics (extractPatternsManually ext emailContents contactName)
  = filter (fun topic => existsb (fun item => isMatch (ec_content item) topic)
                           emailContents) topics
  /\ NoDup (commonTopics (extractPatternsManually ext emailContents contactName))
  /\ forall topic,
       In topic (commonTopics (extractPatternsManually ext emailContents contactName))
       <-> In topic topics /\ mentions emailContents topic.
Proof.
  assert (E : commonTopics (extractPatternsManually ext emailContents contactName)
              = filter (fun topic => existsb (fun item => isMatch (ec_content item) topic)
                                       emailContents) topics).
  { unfold extractPatternsManually, topics. cbn [commonTopics filter].
    per_file. reflexivity. }
  split; [exact E|]. rewrite E. split.
  - apply NoDup_filter. unfold topics.
    repeat (constructor; [simpl; intuition discriminate|]). constructor.
  - intros topic. rewrite filter_In, mentions_existsb. reflexivity.
Qed.

(** X4. The relationship and the style are decided by keywords that single
    files contain, letter case ignored, in the order of the source: manager
    or supervisor, then team or colleague, then client or customer; formal
    needs both dear and sincerely, which may stand in different files. *)
Theorem relationship_and_style_spec (ext : Externals)
  (emailContents : list EmailContent) (contactName : string) :
  let analysis := extractPatternsManually ext emailContents contactName in
  let has := mentions emailContents in
  (relationship analysis = "Manager" <-> has "manager" \/ has "supervisor")
  /\ (relationship analysis = "Colleague" <->
      ~ (has "manager" \/ has "supervisor") /\ (has "team" \/ has "colleague"))
  /\ (relationship analysis = "Client" <->
      ~ (has "manager" \/ has "supervisor") /\ ~ (has "team" \/ has "colleague")
      /\ (has "client" \/ has "customer"))
  /\ (relationship analysis = "Contact" <->
      ~ (has "manager" \/ has "supervisor") /\ ~ (has "team" \/ has "colleague")
      /\ ~ (has "client" \/ has "customer"))
  /\ (communicationStyle analysis = "Formal" <-> has "dear" /\ has "sincerely")
  /\ (communicationStyle analysis = "Casual" <->
      ~ (has "dear" /\ has "sincerely") /\ (has "hey" \/ has "thanks!"))
  /\ (communicationStyle analysis = "Professional" <->
      ~ (has "dear" /\ has "sincerely") /\ ~ (has "hey" \/ has "thanks!")).
Proof.
  cbv zeta. unfold extractPatternsManually. cbn [relationship communicationStyle].
  per_file. rewrite <- !mentions_existsb.
  assert (Hrel :
    forall b1 b2 b3 b4 b5 b6 : bool,
      let rel := if b1 || b2 then "Manager"
                 else if b3 || b4 then "Colleague"
                 else if b5 || b6 then "Client" else "Contact" in
      (rel = "Manager" <-> b1 = true \/ b2 = true)
      /\ (rel = "Colleague" <->
          ~ (b1 = true \/ b2 = true) /\ (b3 = true \/ b4 = true))
      /\ (rel = "Client" <->
          ~ (b1 = true \/ b2 = true) /\ ~ (b3 = true \/ b4 = true)
          /\ (b5 = true \/ b6 = true))
      /\ (rel = "Contact" <->
          ~ (b1 = true \/ b2 = true) /\ ~ (b3 = true \/ b4 = true)
          /\ ~ (b5 = true \/ b6 = true))).
  { intros [] [] [] [] [] []; simpl; repeat split; intros;
      try discriminate; try tauto; intuition discriminate. }
  assert (Hstyle :
    forall b1 b2 b3 b4 : bool,
      let style := if b1 && b2 then "Formal"
                   else if b3 || b4 then "Casual" else "Professional" in
      (style = "Formal" <-> b1 = true /\ b2 = true)
      /\ (style = "Casual" <->
          ~ (b1 = true /\ b2 = true) /\ (b3 = true \/ b4 = true))
      /\ (style = "Professional" <->
          ~ (b1 = true /\ b2 = true) /\ ~ (b3 = true \/ b4 = true))).
  { intros [] [] [] []; simpl; repeat split; intros;
      try discriminate; try tauto; intuition discriminate. }
  pose proof (Hrel
    (existsb (fun item => isMatch (ec_content item) "manager") emailContents)
    (existsb (fun item => isMatch (ec_content item) "supervisor") emailContents)
    (existsb (fun item => isMatch (ec_content item) "team") emailContents)
    (existsb (fun item => isMatch (ec_content item) "colleague") emailContents)
    (existsb (fun item => isMatch (ec_content item) "client") emailContents)
    (existsb (fun item => isMatch (ec_content item) "customer") emailContents)) as H1.
  pose proof (Hstyle
    (existsb (fun item => isMatch (ec_content item) "dear") emailContents)
    (existsb (fun item => isMatch (ec_content item) "sincerely") emailContents)
    (existsb (fun item => isMatch (ec_content item) "hey") emailContents)
    (existsb (fun item => isMatch (ec_content item) "thanks!") emailContents)) as H2.
  cbv zeta in H1, H2.
  destruct H1 as [A [B [C D]]]. destruct H2 as [E [F G]].
  exact (conj A (conj B (conj C (conj D (conj E (conj F G)))))).
Qed.

(** ** The Outlook methods *)

Lemma filter_length_le' {A : Type} (f : A -> bool) (xs : list A) :
  List.length (filter f xs) <= List.length xs.
Proof.
  induction xs as [|x xs IH]; simpl; [lia|]. destruct (f x); simpl; lia.
Qed.

(** A field cut out of a line by [split(',')] and trimmed. *)
Lemma trimmed_part (l p : string) (i : nat) :
  lacks LF l = true ->
  nth_error (split ","%char l) i = Some p ->
  trim (trim p) = trim p
  /\ lacks ","%char (trim p) = true
  /\ lacks LF (trim p) = true.
Proof.
  intros Hl Hp. apply nth_error_In in Hp. split; [apply trim_idem|]. split.
  - apply lacks_trim.
    pose proof (split_pieces_lack ","%char l) as H. rewrite Forall_forall in H.
    now apply H.
  - apply lacks_trim. apply (lacks_occursIn LF p l); [|exact Hl].
    now apply (split_piece_occurs ","%char).
Qed.

(** X5. [parseAppleScriptOutput] returns at most one entry per line of the
    trimmed output, none for a blank output, and only entries with a subject:
    the subject is not empty, has no white space at either end and holds no
    comma and no line feed; a sender or a date, when present, is trimmed in
    the same way. *)
Theorem parseAppleScriptOutput_spec (output : string) :
  List.length (parseAppleScriptOutput output)
  <= List.length (split LF (trim output))
  /\ (trim output = "" -> parseAppleScriptOutput output = [])
  /\ forall email, In email (parseAppleScriptOutput output) ->
       (exists s, subject email = Some s /\ s <> "" /\ trim s = s
                  /\ lacks ","%char s = true /\ lacks LF s = true)
       /\ forall v, sender email = Some v \/ received email = Some v ->
            trim v = v /\ lacks ","%char v = true /\ lacks LF v = true.
Proof.
  unfold parseAppleScriptOutput. cbv zeta. split; [|split].
  - eapply Nat.le_trans; [apply filter_length_le'|]. now rewrite length_map.
  - intros ->. reflexivity.
  - intros email Hin. apply filter_In in Hin as [Hin Hsub].
    apply in_map_iff in Hin as [l [<- Hl]]. cbn [subject sender received] in *.
    assert (Hlf : lacks LF l = true).
    { pose proof (split_pieces_lack LF (trim output)) as H.
      rewrite Forall_forall in H. now apply H. }
    split.
    + destruct (nth_error (split ","%char l) 0) as [p|] eqn:Hp; [|discriminate].
      destruct (trimmed_part l p 0 Hlf Hp) as [H1 [H2 H3]].
      exists (trim p). simpl in Hsub. apply negb_true_iff, String.eqb_neq in Hsub.
      auto.
    + intros v [Hv | Hv].
      * destruct (nth_error (split ","%char l) 1) as [p|] eqn:Hp; [|discriminate].
        injection Hv as <-. exact (trimmed_part l p 1 Hlf Hp).
      * destruct (nth_error (split ","%char l) 2) as [p|] eqn:Hp; [|discriminate].
        injection Hv as <-. exact (trimmed_part l p 2 Hlf Hp).
Qed.

Example parseAppleScriptOutput_example :
  parseAppleScriptOutput
    ("  Budget , Sarah ,Monday, extra" ++ nl ++ " , nobody" ++ nl ++ "Plan" ++ nl)
  = [ {| subject := Some "Budget"; sender := Some "Sarah"; received := Some "Monday" |};
      {| subject := Some "Plan"; sender := None; received := None |} ].
Proof. reflexivity. Qed.

Lemma searchOutlookExportFiles_cases (this : Server) (env : Env) (ext : Externals)
  (contactName : string) :
  exists sr,
    searchFilesAdvanced this env contactName
      (Some (exportLocations (homedir ext))) (Some exportFileTypes) = Success sr
    /\ ((results sr = []
         /\ searchOutlookExportFiles this env ext contactName
            = OutlookFailure noOutlookData)
        \/ (results sr <> []
            /\ searchOutlookExportFiles this env ext contactName
               = OutlookExported "Outlook Export Files" contactName
                   (List.length (results sr)) (firstn 5 (results sr))
            /\ 1 <= List.length (results sr) <= 50
            /\ List.length (firstn 5 (results sr)) = min 5 (List.length (results sr))
            /\ forall r, In r (firstn 5 (results sr)) ->
                 In (type r) [".olm"; ".pst"; ".mbox"; ".eml"])).
Proof.
  destruct (searchFilesAdvanced_succeeds this env contactName
              (Some (exportLocations (homedir ext))) (Some exportFileTypes))
    as [sr Hsr].
  exists sr. split; [exact Hsr|]. unfold searchOutlookExportFiles. rewrite Hsr.
  destruct (results sr) as [|r0 rs] eqn:E.
  - left. split; reflexivity.
  - right. split; [discriminate|]. split; [reflexivity|].
    destruct (searchFilesAdvanced_fields Hsr) as [_ [Hres _]].
    split; [|split; [apply length_firstn|]].
    + split; [simpl; lia|]. rewrite <- E, Hres, length_firstn. lia.
    + intros r Hin. apply firstn_In in Hin. rewrite <- E in Hin.
      destruct (results_Found r Hsr Hin)
        as [location [root [ds [n [_ [_ [_ HF]]]]]]].
      destruct HF as [_ [_ [_ [_ [He [c [md [_ [_ ->]]]]]]]]].
      now apply arrayIncludes_In in He.
Qed.

(** X6. [searchOutlookExportFiles] searches the four export folders of the
    home directory for the four Outlook file types.  It reports success
    exactly when that search returns a record; it then counts the returned
    records, between 1 and 50, and passes on the first five of them, each of
    one of the four types; otherwise it reports that no Outlook data was
    found. *)
Theorem searchOutlookExportFiles_spec (this : Server) (env : Env) (ext : Externals)
  (contactName : string) :
  exists sr,
    searchFilesAdvanced this env contactName
      (Some (exportLocations (homedir ext))) (Some exportFileTypes) = Success sr
    /\ ((results sr = []
         /\ searchOutlookExportFiles this env ext contactName
            = OutlookFailure noOutlookData)
        \/ (results sr <> []
            /\ searchOutlookExportFiles this env ext contactName
               = OutlookExported "Outlook Export Files" contactName
                   (List.length (results sr)) (firstn 5 (results sr))
            /\ 1 <= List.length (results sr) <= 50
            /\ List.length (firstn 5 (results sr)) = min 5 (List.length (results sr))
            /\ forall r, In r (firstn 5 (results sr)) ->
                 In (type r) [".olm"; ".pst"; ".mbox"; ".eml"])).
Proof. exact (searchOutlookExportFiles_cases this env ext contactName). Qed.

Lemma parsed_email_has_subject (output : string) (email : OutlookEmail) :
  In email (parseAppleScriptOutput output) ->
  exists s, subject email = Some s /\ s <> "".
Proof.
  unfold parseAppleScriptOutput. cbv zeta. intros Hin.
  apply filter_In in Hin as [_ Hsub].
  destruct (subject email) as [s|]; [|discriminate].
  exists s. simpl in Hsub. apply negb_true_iff, String.eqb_neq in Hsub. auto.
Qed.

(** X7. [searchMacOSOutlook] answers off macOS with a fixed failure and runs
    no command.  On macOS it falls back to the export files whenever
    [osascript] throws or writes to [stderr].  Whatever it returns has one of
    three shapes: emails that all have a subject, from the script; between 1
    and 50 export files found, at most five of them passed on, each of an
    Outlook file type; or a failure with one of two fixed messages. *)
Theorem searchMacOSOutlook_spec (platform : string) (this : Server) (env : Env)
  (ext : Externals) (contactName : string) :
  (platform <> "darwin" ->
   searchMacOSOutlook platform this env ext contactName
   = OutlookFailure "macOS Outlook integration only available on macOS")
  /\ (platform = "darwin" ->
      (forall out, execAsync ext ("osascript -e '" ++ appleScript contactName ++ "'")
                   = Ok out -> snd out <> "") ->
      searchMacOSOutlook platform this env ext contactName
      = searchOutlookExportFiles this env ext contactName)
  /\ match searchMacOSOutlook platform this env ext contactName with
     | OutlookFailure e =>
         e = "macOS Outlook integration only available on macOS"
         \/ e = noOutlookData
     | OutlookScripted emails source c =>
         platform = "darwin" /\ c = contactName
         /\ forall email, In email emails ->
              exists s, subject email = Some s /\ s <> ""
     | OutlookExported _ c foundFiles files =>
         platform = "darwin" /\ c = contactName
         /\ 1 <= foundFiles <= 50
         /\ List.length files = min 5 foundFiles
         /\ forall r, In r files -> In (type r) [".olm"; ".pst"; ".mbox"; ".eml"]
     | OutlookDesktop _ _ => False
     end.
Proof.
  assert (Hexp :
    match searchOutlookExportFiles this env ext contactName with
    | OutlookFailure e =>
        e = "macOS Outlook integration only available on macOS" \/ e = noOutlookData
    | OutlookScripted _ _ _ => False
    | OutlookExported _ c foundFiles files =>
        c = contactName /\ 1 <= foundFiles <= 50
        /\ List.length files = min 5 foundFiles
        /\ forall r, In r files -> In (type r) [".olm"; ".pst"; ".mbox"; ".eml"]
    | OutlookDesktop _ _ => False
    end).
  { destruct (searchOutlookExportFiles_cases this env ext contactName)
      as [sr [_ [[_ ->] | [_ [-> [H1 [H2 H3]]]]]]]; auto. }
  unfold searchMacOSOutlook. destruct (platform =? "darwin") eqn:Hp; cbn [negb].
  - apply String.eqb_eq in Hp. split; [intros H; contradiction|].
    destruct (execAsync ext ("osascript -e '" ++ appleScript contactName ++ "'"))
      as [[stdout stderr]|m] eqn:Hex.
    + destruct (stderr =? "") eqn:Herr; cbn [negb].
      * apply String.eqb_eq in Herr. split.
        -- intros _ H. specialize (H _ eq_refl). simpl in H. contradiction.
        -- repeat split; auto. intros email. apply parsed_email_has_subject.
      * split; [reflexivity|].
        destruct (searchOutlookExportFiles this env ext contactName); tauto.
    + split; [reflexivity|].
      destruct (searchOutlookExportFiles this env ext contactName); tauto.
  - apply String.eqb_neq in Hp. split; [reflexivity|].
    split; [intros H; contradiction | now left].
Qed.

Example searchMacOSOutlook_script :
  searchMacOSOutlook "darwin" server0 (treeEnv "/" scenarioTree)
    {| execAsync := fun _ => Ok ("Budget, Sarah, Monday" ++ nl, "");
       JSON_parse := fun _ => Throw "unused";
       homedir := "/home/user";
       today := "2024-01-15" |}
    "sarah"
  = OutlookScripted
      [{| subject := Some "Budget"; sender := Some "Sarah"; received := Some "Monday" |}]
      "Outlook macOS (AppleScript)" "sarah".
Proof. reflexivity. Qed.

(** ** Listing a directory *)

Lemma listDirectory_cases (env : Env) (dirPath : option string) :
  listDirectory env dirPath =
  match resolve env (orDefault dirPath ".") with
  | Throw m => ListErr m
  | Ok p =>
      match fs_readdir env p with
      | Throw m => ListErr m
      | Ok items => ListOk p (map (listItem env p) (firstn 100 items))
      end
  end.
Proof.
  unfold listDirectory, bind. cbv zeta.
  destruct (resolve env (orDefault dirPath ".")) as [p|]; [|reflexivity].
  destruct (fs_readdir env p); reflexivity.
Qed.

(** X8. When the directory can be resolved and read, [listDirectory] lists
    its first 100 entries, in the order of the enumeration and under their
    names, at most 100 in all; an entry is typed [directory] when it is one
    and [file] otherwise, symbolic links and devices included. *)
Theorem listDirectory_first_100 (env : Env) (dirPath : option string)
  (p : string) (items : list Dirent) :
  resolve env (orDefault dirPath ".") = Ok p ->
  fs_readdir env p = Ok items ->
  exists contents,
    listDirectory env dirPath = ListOk p contents
    /\ List.length contents = min 100 (List.length items)
    /\ map listedName contents = map name (firstn 100 items)
    /\ map listedType contents
       = map (fun item => if isDirectory item then "directory" else "file")
           (firstn 100 items).
Proof.
  intros Hr Hd. rewrite listDirectory_cases, Hr, Hd.
  eexists. split; [reflexivity|]. rewrite length_map, length_firstn, !map_map.
  split; [reflexivity|].
  split; apply map_ext; intros item; unfold listItem;
    destruct (fs_stat env (Path.join p (name item))); reflexivity.
Qed.

Lemma listDirectory_first_100_witness :
  exists contents,
    listDirectory (treeEnv "/data" scenarioTree) None = ListOk "/data" contents
    /\ List.length contents = min 100 (List.length [mkDirent "a.txt" FileK; mkDirent "sub" DirK])
    /\ map listedName contents
       = map name (firstn 100 [mkDirent "a.txt" FileK; mkDirent "sub" DirK])
    /\ map listedType contents
       = map (fun item => if isDirectory item then "directory" else "file")
           (firstn 100 [mkDirent "a.txt" FileK; mkDirent "sub" DirK]).
Proof.
  apply (listDirectory_first_100 (treeEnv "/data" scenarioTree) None "/data"
           [mkDirent "a.txt" FileK; mkDirent "sub" DirK]);
    vm_compute; reflexivity.
Defined.

(** X9. [listDirectory] fails exactly when resolving the path or reading
    the directory throws, with the message of that exception.  The [stat] of
    an entry never fails the listing: when it throws, the entry is still
    listed, with its name and type and the error [Permission denied] in
    place of size, date and path. *)
Theorem listDirectory_failures (env : Env) (dirPath : option string) :
  (forall m,
     listDirectory env dirPath = ListErr m <->
     resolve env (orDefault dirPath ".") = Throw m
     \/ exists p, resolve env (orDefault dirPath ".") = Ok p
                  /\ fs_readdir env p = Throw m)
  /\ forall p contents item,
       listDirectory env dirPath = ListOk p contents ->
       In item contents ->
       match item with
       | Listed n t _ _ path =>
           path = Path.join p n /\ exists st, fs_stat env path = Ok st
       | Unlisted n t e =>
           e = "Permission denied"
           /\ exists m, fs_stat env (Path.join p n) = Throw m
       end.
Proof.
  rewrite listDirectory_cases. split.
  - intros m. destruct (resolve env (orDefault dirPath ".")) as [p|m0].
    + destruct (fs_readdir env p) as [items|m1] eqn:Hd.
      * split; [discriminate|]. intros [H | [p' [H1 H2]]]; [discriminate|].
        injection H1 as <-. congruence.
      * split.
        -- intros H. injection H as <-. right. eauto.
        -- intros [H | [p' [H1 H2]]]; [discriminate|].
           injection H1 as <-. congruence.
    + split.
      * intros H. injection H as <-. now left.
      * intros [H | [p' [H1 _]]]; [congruence | discriminate].
  - intros p contents item H Hin.
    destruct (resolve env (orDefault dirPath ".")) as [p0|]; [|discriminate].
    destruct (fs_readdir env p0) as [items|]; [|discriminate].
    injection H as <- <-. apply in_map_iff in Hin as [d [<- _]].
    unfold listItem. destruct (fs_stat env (Path.join p0 (name d))) eqn:Hs; eauto.
Qed.

(** ** The files handed to the analysis *)

Lemma collectEmailContents_eq (env : Env) (found : list MatchRecord) :
  collectEmailContents env found =
  flat_map
    (fun result =>
       match readFile env (file result) with
       | ReadOk content _ =>
           [{| ec_file := file result;
               ec_content := content;
               ec_modified := modified result |}]
       | ReadErr _ => []
       end)
    (firstn 10 found).
Proof.
  unfold collectEmailContents.
  rewrite (fold_left_appends
             (fun emailContents result =>
                match readFile env (file result) with
                | ReadOk content _ =>
                    app emailContents
                      [{| ec_file := file result;
                          ec_content := content;
                          ec_modified := modified result |}]
                | ReadErr _ => emailContents
                end)).
  - simpl. apply flat_map_ext. intros r. destruct (readFile env (file r)); reflexivity.
  - intros acc r. destruct (readFile env (file r)); [reflexivity|].
    now rewrite app_nil_r.
Qed.

(** When every record can be read again, none is dropped. *)
Lemma collect_all_readable (env : Env) (P : string -> Prop) (xs : list MatchRecord) :
  (forall r, In r xs ->
     exists c md, readFile env (file r) = ReadOk c md /\ P c) ->
  let collected :=
    flat_map
      (fun result =>
         match readFile env (file result) with
         | ReadOk content _ =>
             [{| ec_file := file result;
                 ec_content := content;
                 ec_modified := modified result |}]
         | ReadErr _ => []
         end) xs in
  List.length collected = List.length xs
  /\ map ec_file collected = map file xs
  /\ forall e, In e collected ->
       P (ec_content e) /\ exists md, readFile env (ec_file e) = ReadOk (ec_content e) md.
Proof.
  cbv zeta. induction xs as [|r xs IH]; intros H.
  - simpl. split; [reflexivity|]. split; [reflexivity|]. intros e [].
  - destruct (IH (fun r' Hr' => H r' (or_intror Hr'))) as [IH1 [IH2 IH3]].
    destruct (H r (or_introl eq_refl)) as [c [md [Hr Hp]]].
    cbn [flat_map]. rewrite Hr. cbn [app List.length map ec_file].
    rewrite IH1, IH2. split; [reflexivity|]. split; [reflexivity|].
    intros e [<- | He]; [|now apply IH3].
    split; [exact Hp | simpl; eauto].
Qed.

(** X10. [analyzeEmailPatternsAdvanced] answers with the mock analysis
    exactly when the search over the default locations returns no record.
    Otherwise [foundFiles] is the number of returned records, at most 50, and
    the analysis is run on the first ten of them, in order: with the file
    system unchanged since the search each is read again in full, none is
    dropped, and every file handed over contains the contact name, letter
    case ignored. *)
Theorem analyzeEmailPatternsAdvanced_spec (AIAnalysis MockAnalysis : Type)
  (analyzeWithAI : string -> list EmailContent -> AIAnalysis)
  (generateMockEmailAnalysis : string -> MockAnalysis)
  (this : Server) (env : Env) (contactName : string) :
  exists sr,
    searchFilesAdvanced this env contactName None None = Success sr
    /\ ((results sr = []
         /\ analyzeEmailPatternsAdvanced analyzeWithAI generateMockEmailAnalysis
              this env contactName
            = Mocked AIAnalysis (generateMockEmailAnalysis contactName))
        \/ (results sr <> []
            /\ exists emailContents,
                 analyzeEmailPatternsAdvanced analyzeWithAI
                   generateMockEmailAnalysis this env contactName
                 = Analysed MockAnalysis contactName (List.length (results sr))
                     (List.length emailContents) (searchLocations sr)
                     (analyzeWithAI contactName emailContents)
                 /\ List.length (results sr) <= 50
                 /\ List.length emailContents = min 10 (List.length (results sr))
                 /\ map ec_file emailContents = map file (firstn 10 (results sr))
                 /\ forall e, In e emailContents ->
                      containsIgnoreCase (ec_content e) contactName
                      /\ exists md,
                           readFile env (ec_file e) = ReadOk (ec_content e) md)).
Proof.
  destruct (searchFilesAdvanced_succeeds this env contactName None None) as [sr Hsr].
  exists sr. split; [exact Hsr|].
  unfold analyzeEmailPatternsAdvanced. rewrite Hsr.
  destruct (List.length (results sr) =? 0)%nat eqn:E0.
  { left. apply Nat.eqb_eq, length_zero_iff_nil in E0. split; [exact E0 | reflexivity]. }
  right. apply Nat.eqb_neq in E0.
  split; [intros Hnil; rewrite Hnil in E0; now apply E0|].
  exists (collectEmailContents env (results sr)). split; [reflexivity|].
  destruct (searchFilesAdvanced_fields Hsr) as [_ [Hres _]].
  split; [rewrite Hres, length_firstn; lia|].
  rewrite collectEmailContents_eq.
  destruct (collect_all_readable env
              (fun c => containsIgnoreCase c contactName)
              (firstn 10 (results sr))) as [H1 [H2 H3]].
  { intros r Hin. apply firstn_In in Hin.
    destruct (results_Found r Hsr Hin)
      as [location [root [ds [n [_ [_ [_ HF]]]]]]].
    destruct HF as [_ [_ [_ [_ [_ [c [md [Hread [Hm ->]]]]]]]]].
    exists c, md. split; [exact Hread | now apply isMatch_spec]. }
  rewrite H1, length_firstn. auto.
Qed.

(** ** The order of the locations *)

Lemma list_sum_flat_map {A B : Type} (f : A -> list B) (xs : list A) :
  List.length (flat_map f xs) = list_sum (map (fun x => List.length (f x)) xs).
Proof.
  induction xs as [|x xs IH]; simpl; [reflexivity|]. now rewrite length_app, IH.
Qed.




(** ** Reading a file *)

(** X13. [readFile] succeeds exactly when the path resolves, the utf-8 read
    or, after it threw, the latin1 read succeeds, and [fs.stat] succeeds too;
    the content is that of the read that succeeded and the metadata hold the
    resolved path with the size and date of [fs.stat].  A file that is read
    but cannot be examined by [fs.stat] is reported as a failure. *)
Theorem readFile_succeeds_iff (env : Env) (filePath content : string)
  (metadata : Metadata) :
  readFile env filePath = ReadOk content metadata
  <->
  exists p st,
    resolve env filePath = Ok p
    /\ (fs_readFile env p "utf-8" = Ok content
        \/ ((exists m, fs_readFile env p "utf-8" = Throw m)
            /\ fs_readFile env p "latin1" = Ok content))
    /\ fs_stat env p = Ok st
    /\ metadata = mkMetadata (st_size st) (st_mtime st) p "auto-detected".
Proof.
  rewrite readFile_cases. split.
  - destruct (resolve env filePath) as [p|]; [|discriminate].
    destruct (fs_readFile env p "utf-8") as [c|m] eqn:Hu.
    + destruct (fs_stat env p) as [st|] eqn:Hs; [|discriminate].
      intros H. injection H as <- <-. exists p, st. auto.
    + destruct (fs_readFile env p "latin1") as [c|] eqn:Hl; [|discriminate].
      destruct (fs_stat env p) as [st|] eqn:Hs; [|discriminate].
      intros H. injection H as <- <-. exists p, st. eauto 8.
  - intros [p [st [-> [[Hu | [[m Hu] Hl]] [Hs ->]]]]].
    + now rewrite Hu, Hs.
    + now rewrite Hu, Hl, Hs.
Qed.

(** ** The intent of a message *)

Lemma intent_cascade (b1 b2 b3 b4 b5 b6 b7 b8 b9 b10 b11 b12 : bool) :
  let t :=
    if b1 || b2 then "reply"
    else if b3 || b4 then "follow-up"
    else if b5 || b6 then "meeting"
    else if b7 || b8 then "thank you"
    else if b9 || b10 then "introduction"
    else if b11 || b12 then "request"
    else "general" in
  (t = "general" <->
   Forall (fun b => b = false) [b1; b2; b3; b4; b5; b6; b7; b8; b9; b10; b11; b12])
  /\ (b1 = true \/ b2 = true -> t = "reply")
  /\ In t ["reply"; "follow-up"; "meeting"; "thank you"; "introduction";
           "request"; "general"].
Proof.
  cbv zeta.
  assert (Hno : forall (b : bool) (bs : list bool),
            ~ Forall (fun b => b = false) (true :: bs)).
  { intros b bs H. inversion H. discriminate. }
  assert (Hskip : forall (bs : list bool) (P : Prop),
            (P <-> Forall (fun b => b = false) bs) ->
            (P <-> Forall (fun b => b = false) (false :: bs))).
  { intros bs P [H1 H2]. split.
    - intros H. constructor; auto.
    - intros H. inversion H. auto. }
  assert (Hhit : forall (x : string) (bs : list bool),
            x <> "general" ->
            ~ Forall (fun b => b = false) bs ->
            (x = "general" <-> Forall (fun b => b = false) bs)).
  { intros x bs H1 H2. split; [congruence | tauto]. }
  split; [|split].
  - destruct b1; [apply Hhit; [discriminate | intros H; inversion H; discriminate]|].
    apply Hskip.
    destruct b2; [apply Hhit; [discriminate | intros H; inversion H; discriminate]|].
    apply Hskip. cbn [orb].
    destruct b3; [apply Hhit; [discriminate | intros H; inversion H; discriminate]|].
    apply Hskip.
    destruct b4; [apply Hhit; [discriminate | intros H; inversion H; discriminate]|].
    apply Hskip. cbn [orb].
    destruct b5; [apply Hhit; [discriminate | intros H; inversion H; discriminate]|].
    apply Hskip.
    destruct b6; [apply Hhit; [discriminate | intros H; inversion H; discriminate]|].
    apply Hskip. cbn [orb].
    destruct b7; [apply Hhit; [discriminate | intros H; inversion H; discriminate]|].
    apply Hskip.
    destruct b8; [apply Hhit; [discriminate | intros H; inversion H; discriminate]|].
    apply Hskip. cbn [orb].
    destruct b9; [apply Hhit; [discriminate | intros H; inversion H; discriminate]|].
    apply Hskip.
    destruct b10; [apply Hhit; [discriminate | intros H; inversion H; discriminate]|].
    apply Hskip. cbn [orb].
    destruct b11; [apply Hhit; [discriminate | intros H; inversion H; discriminate]|].
    apply Hskip.
    destruct b12; [apply Hhit; [discriminate | intros H; inversion H; discriminate]|].
    apply Hskip. cbn [orb]. split; [constructor | reflexivity].
  - intros [-> | ->]; [reflexivity | destruct b1; reflexivity].
  - destruct (b1 || b2); [simpl; tauto|].
    destruct (b3 || b4); [simpl; tauto|].
    destruct (b5 || b6); [simpl; tauto|].
    destruct (b7 || b8); [simpl; tauto|].
    destruct (b9 || b10); [simpl; tauto|].
    destruct (b11 || b12); simpl; tauto.
Qed.

(** X14. [extractEmailIntent] classifies a message by the first of six
    keyword groups of which a keyword occurs in it, letter case ignored:
    the type is [general] exactly when none of the twelve keywords occurs,
    [reply] as soon as reply or respond occurs, whatever else does; it is
    always one of seven types, and two messages that differ only in letter
    case get the same intent. *)
Theorem extractEmailIntent_spec (message : string) :
  (intentType (extractEmailIntent message) = "general" <->
   forall k, In k intentKeywords -> ~ containsIgnoreCase message k)
  /\ (containsIgnoreCase message "reply" \/ containsIgnoreCase message "respond" ->
      intentType (extractEmailIntent message) = "reply")
  /\ In (intentType (extractEmailIntent message))
       ["reply"; "follow-up"; "meeting"; "thank you"; "introduction";
        "request"; "general"]
  /\ forall other,
       equalIgnoreCase message other ->
       extractEmailIntent other = extractEmailIntent message.
Proof.
  assert (Hb : forall k, isMatch message k = false <-> ~ containsIgnoreCase message k).
  { intros k. rewrite <- isMatch_spec. destruct (isMatch message k); split;
      congruence. }
  pose proof (intent_cascade
    (isMatch message "reply") (isMatch message "respond")
    (isMatch message "follow up") (isMatch message "followup")
    (isMatch message "meeting") (isMatch message "schedule")
    (isMatch message "thank") (isMatch message "appreciation")
    (isMatch message "introduction") (isMatch message "introduce")
    (isMatch message "request") (isMatch message "ask")) as [H1 [H2 H3]].
  assert (E : intentType (extractEmailIntent message) =
    if isMatch message "reply" || isMatch message "respond" then "reply"
    else if isMatch message "follow up" || isMatch message "followup" then "follow-up"
    else if isMatch message "meeting" || isMatch message "schedule" then "meeting"
    else if isMatch message "thank" || isMatch message "appreciation" then "thank you"
    else if isMatch message "introduction" || isMatch message "introduce"
    then "introduction"
    else if isMatch message "request" || isMatch message "ask" then "request"
    else "general").
  { unfold extractEmailIntent, isMatch. cbv zeta.
    change (toLowerCase "reply") with "reply".
    change (toLowerCase "respond") with "respond".
    change (toLowerCase "follow up") with "follow up".
    change (toLowerCase "followup") with "followup".
    change (toLowerCase "meeting") with "meeting".
    change (toLowerCase "schedule") with "schedule".
    change (toLowerCase "thank") with "thank".
    change (toLowerCase "appreciation") with "appreciation".
    change (toLowerCase "introduction") with "introduction".
    change (toLowerCase "introduce") with "introduce".
    change (toLowerCase "request") with "request".
    change (toLowerCase "ask") with "ask".
    destruct (includes (toLowerCase message) "reply"
              || includes (toLowerCase message) "respond"); [reflexivity|].
    destruct (includes (toLowerCase message) "follow up"
              || includes (toLowerCase message) "followup"); [reflexivity|].
    destruct (includes (toLowerCase message) "meeting"
              || includes (toLowerCase message) "schedule"); [reflexivity|].
    destruct (includes (toLowerCase message) "thank"
              || includes (toLowerCase message) "appreciation"); [reflexivity|].
    destruct (includes (toLowerCase message) "introduction"
              || includes (toLowerCase message) "introduce"); [reflexivity|].
    destruct (includes (toLowerCase message) "request"
              || includes (toLowerCase message) "ask"); reflexivity. }
  rewrite E. cbv zeta in H1, H2, H3. split; [|split; [|split]].
  - rewrite H1. unfold intentKeywords. split.
    + intros HF k Hk. apply Hb.
      repeat (inversion HF as [|? ? ? HF']; subst; clear HF; rename HF' into HF;
              destruct Hk as [<- | Hk]; [assumption|]).
      destruct Hk.
    + intros H. repeat (constructor; [apply Hb, H; simpl; tauto|]). constructor.
  - intros [H | H]; apply H2; [left | right]; now apply isMatch_spec.
  - exact H3.
  - intros other Heq. unfold extractEmailIntent. cbv zeta.
    unfold equalIgnoreCase in Heq. now rewrite Heq.
Qed.

Example intent_priority :
  intentType (extractEmailIntent "Please REPLY and schedule a meeting") = "reply"
  /\ intentType (extractEmailIntent "finish the task") = "request"
  /\ intentType (extractEmailIntent "hello there") = "general".
Proof. repeat split; reflexivity. Qed.

(** ** The dispatcher and the routes *)

Lemma executeTool_cases (platform toolName : string) (args : Dispatch.Args) :
  (In toolName toolNames
   /\ forall (R : Type) (methods : Methods R),
        exists r, perform methods (Dispatch.executeTool platform toolName args) = Ok r)
  \/ (~ In toolName toolNames
      /\ Dispatch.executeTool platform toolName args
         = Dispatch.throw_Error ("Unknown tool: " ++ toolName)).
Proof.
  unfold Dispatch.executeTool, Dispatch.selectClause, Dispatch.clauses.
  cbn [Dispatch.selectFrom Dispatch.label].
  destruct ("read_file" =? toolName) eqn:E1;
    [apply String.eqb_eq in E1; subst; left; split;
     [simpl; tauto | intros; eexists; reflexivity]|].
  destruct ("list_directory" =? toolName) eqn:E2;
    [apply String.eqb_eq in E2; subst; left; split;
     [simpl; tauto | intros; eexists; reflexivity]|].
  destruct ("search_files_advanced" =? toolName) eqn:E3;
    [apply String.eqb_eq in E3; subst; left; split;
     [simpl; tauto | intros; eexists; reflexivity]|].
  destruct ("get_system_info" =? toolName) eqn:E4;
    [apply String.eqb_eq in E4; subst; left; split;
     [simpl; tauto | intros; eexists; reflexivity]|].
  destruct ("analyze_email_patterns_advanced" =? toolName) eqn:E5;
    [apply String.eqb_eq in E5; subst; left; split;
     [simpl; tauto | intros; eexists; reflexivity]|].
  destruct ("search_outlook_emails" =? toolName) eqn:E6;
    [apply String.eqb_eq in E6; subst; left; split;
     [simpl; tauto | intros; eexists; reflexivity]|].
  destruct ("generate_ai_email" =? toolName) eqn:E7;
    [apply String.eqb_eq in E7; subst; left; split;
     [simpl; tauto | intros; eexists; reflexivity]|].
  right. split; [|reflexivity].
  apply String.eqb_neq in E1, E2, E3, E4, E5, E6, E7.
  unfold toolNames. simpl. intuition congruence.
Qed.

(** X15. [executeTool] has a handler for every tool that the server
    advertises in [this.tools] and for no other name: it throws, with
    [Unknown tool:] and the name, exactly for the names that are not
    advertised, on every platform and for every [args]. *)
Theorem executeTool_handles_the_catalog (platform toolName : string)
  (args : Dispatch.Args) :
  (In toolName toolNames ->
   forall m, Dispatch.executeTool platform toolName args <> Dispatch.throw_Error m)
  /\ (~ In toolName toolNames ->
      Dispatch.executeTool platform toolName args
      = Dispatch.throw_Error ("Unknown tool: " ++ toolName)).
Proof.
  destruct (executeTool_cases platform toolName args) as [[Hin H] | [Hout H]].
  - split; [|tauto]. intros _ m Hm. destruct (H unit noMethods) as [r Hr].
    rewrite Hm in Hr. discriminate.
  - split; [tauto | auto].
Qed.






(** X19. [searchOutlookEmails] answers off Windows with a fixed failure.  An
    answer with emails comes from Windows only, when PowerShell wrote
    nothing to [stderr] and its output parsed as JSON: an array is passed on
    as it is and any other value, such as the object of a single email, is
    wrapped into an array of one element.  Every other outcome is a failure
    whose message starts with [Outlook access failed:] or [Could not parse
    Outlook data:]. *)
Theorem searchOutlookEmails_spec (platform : string) (ext : Externals)
  (contactName : string) :
  (platform <> "win32" ->
   searchOutlookEmails platform ext contactName
   = OutlookFailure "Outlook integration only available on Windows")
  /\ match searchOutlookEmails platform ext contactName with
     | OutlookDesktop emails source =>
         platform = "win32" /\ source = "Outlook Desktop"
         /\ exists stdout j,
              execAsync ext
                ("powershell -Command " ++ dq ++ powershellScript contactName ++ dq)
              = Ok (stdout, "")
              /\ JSON_parse ext stdout = Ok j
              /\ ((exists items, j = JArray items /\ emails = items)
                  \/ ((forall items, j <> JArray items) /\ emails = [j]))
     | OutlookFailure e =>
         e = "Outlook integration only available on Windows"
         \/ (platform = "win32"
             /\ exists detail,
                  e = "Outlook access failed: " ++ detail
                  \/ e = "Could not parse Outlook data: " ++ detail)
     | _ => False
     end.
Proof.
  unfold searchOutlookEmails. destruct (platform =? "win32") eqn:Hp; cbn [negb].
  - apply String.eqb_eq in Hp. split; [intros H; contradiction|].
    destruct (execAsync ext
                ("powershell -Command " ++ dq ++ powershellScript contactName ++ dq))
      as [[stdout stderr]|m]; [|right; eauto].
    destruct (stderr =? "") eqn:Herr; cbn [negb]; [|right; eauto].
    apply String.eqb_eq in Herr. subst stderr.
    destruct (JSON_parse ext stdout) as [j|] eqn:Hj; [|right; eauto].
    split; [exact Hp|]. split; [reflexivity|]. exists stdout, j.
    split; [reflexivity|]. split; [exact Hj|].
    destruct j; try (right; split; [intros items; discriminate | reflexivity]).
    left. eauto.
  - apply String.eqb_neq in Hp. split; [reflexivity | now left].
Qed.

(** ** The order of enumeration *)

Lemma reversedEnv_sameTree (env : Env) : sameTree env (reversedEnv env).
Proof.
  unfold sameTree, reversedEnv. simpl. repeat split; try reflexivity.
  intros p. destruct (fs_readdir env p); [apply Permutation_rev | exact I].
Qed.

(** X20. The matches do not depend on the order in which directories are
    enumerated: two file systems that show the same tree, their directories
    listed in different orders, give the same [totalResults] and, when at
    most 50 files match, the same records up to their order.  (Beyond 50
    the cap keeps whichever matches come first.) *)
Theorem enumeration_order_below_the_cap (env1 env2 : Env) (this : Server)
  (query : string) (customLocations customFileTypes : option (list string))
  (sr1 sr2 : SearchSuccess) :
  sameTree env1 env2 ->
  searchFilesAdvanced this env1 query customLocations customFileTypes = Success sr1 ->
  searchFilesAdvanced this env2 query customLocations customFileTypes = Success sr2 ->
  totalResults sr1 = totalResults sr2
  /\ (totalResults sr1 <= 50 -> Permutation (results sr1) (results sr2)).
Proof.
  intros Hsame H1 H2.
  destruct (searchFilesAdvanced_fields H1) as [_ [Hr1 Ht1]].
  destruct (searchFilesAdvanced_fields H2) as [_ [Hr2 Ht2]].
  pose proof (sameTree_allMatches Hsame query
                (orDefault customLocations (this_searchLocations this))
                (orDefault customFileTypes (this_emailFileTypes this))) as Hp.
  pose proof (Permutation_length Hp) as Hlen.
  split; [congruence|]. intros Hle.
  rewrite Hr1, Hr2, !firstn_all2 by lia. exact Hp.
Qed.

Lemma enumeration_order_below_the_cap_witness :
  totalResults
    {| query := "";
       searchLocations := ["/data"];
       totalResults := 2;
       results := allMatches (treeEnv "/" scenarioTree) "" ["/data"] emailFileTypes |}
  = totalResults
      {| query := "";
         searchLocations := ["/data"];
         totalResults := 2;
         results :=
           allMatches (reversedEnv (treeEnv "/" scenarioTree)) "" ["/data"]
             emailFileTypes |}
  /\ (totalResults
        {| query := "";
           searchLocations := ["/data"];
           totalResults := 2;
           results :=
             allMatches (treeEnv "/" scenarioTree) "" ["/data"] emailFileTypes |}
      <= 50 ->
      Permutation
        (results
           {| query := "";
              searchLocations := ["/data"];
              totalResults := 2;
              results :=
                allMatches (treeEnv "/" scenarioTree) "" ["/data"] emailFileTypes |})
        (results
           {| query := "";
              searchLocations := ["/data"];
              totalResults := 2;
              results :=
                allMatches (reversedEnv (treeEnv "/" scenarioTree)) "" ["/data"]
                  emailFileTypes |})).
Proof.
  apply (enumeration_order_below_the_cap (treeEnv "/" scenarioTree)
           (reversedEnv (treeEnv "/" scenarioTree)) server0 "" (Some ["/data"]) None).
  - apply reversedEnv_sameTree.
  - vm_compute. reflexivity.
  - vm_compute. reflexivity.
Defined.

Example reversed_enumeration_changes_the_order :
  map file (allMatches (treeEnv "/" scenarioTree) "" ["/data"] emailFileTypes)
  = ["/data/a.txt"; "/data/sub/b.md"]
  /\ map file
       (allMatches (reversedEnv (treeEnv "/" scenarioTree)) "" ["/data"] emailFileTypes)
     = ["/data/sub/b.md"; "/data/a.txt"].
Proof. split; vm_compute; reflexivity. Qed.
